(** * Greek scansion: syllable lengths and iambic trimeter assembly

    A shallow embedding of [greek_scansion.py] (natural and positional
    syllable length, [scan_line]) and of [scan_trimeter.py] (the metron
    grammar, [fill_metron] and the two assembly passes), with the
    properties of the prose specification stated and settled against it.

    Python strings are sequences of Unicode code points: a character is
    its code point in [N], a string a list of them.  The metrical
    alphabet 'L' / 'S' / 'X' is an enumeration, a meter string a list of
    symbols.  Exceptions are values of an error monad. *)

From Stdlib Require Import Ascii String.
From Stdlib Require Import List NArith ZArith Bool Lia.
Import ListNotations.

(** ** Python values and exceptions *)

Module Py.

Inductive exn : Type :=
| IndexError   (* sequence index out of range *)
| TypeError.   (* item assignment on an immutable str *)

Inductive result (A : Type) : Type :=
| Ok (a : A)
| Raise (e : exn).

Arguments Ok {A} a.
Arguments Raise {A} e.

Definition bind {A B} (r : result A) (k : A -> result B) : result B :=
  match r with
  | Ok a => k a
  | Raise e => Raise e
  end.

Definition is_ok {A} (r : result A) : bool :=
  match r with Ok _ => true | Raise _ => false end.

(** A code point, and a str. *)
Definition char := N.
Definition str := list char.

Definition char_in (c : char) (l : list char) : bool :=
  existsb (N.eqb c) l.

Fixpoint str_eqb (a b : str) : bool :=
  match a, b with
  | [], [] => true
  | x :: a', y :: b' => N.eqb x y && str_eqb a' b'
  | _, _ => false
  end.

(** [s in l] for a list of strings. *)
Definition str_in (s : str) (l : list str) : bool :=
  existsb (str_eqb s) l.

(** [s.startswith(p)] *)
Fixpoint starts_with (p s : str) : bool :=
  match p, s with
  | [], _ => true
  | x :: p', y :: s' => N.eqb x y && starts_with p' s'
  | _ :: _, [] => false
  end.

(** [p in s] for strings: [p] occurs as a substring of [s]. *)
Fixpoint substring_in (p s : str) : bool :=
  starts_with p s ||
  match s with
  | [] => false
  | _ :: s' => substring_in p s'
  end.

(** [s[0]] and [s[-1]] of a sequence, raising [IndexError] when it is
    empty. *)
Definition first {A} (s : list A) : result A :=
  match s with
  | [] => Raise IndexError
  | c :: _ => Ok c
  end.

Definition last {A} (s : list A) : result A :=
  first (rev s).

(** A [for] loop whose body may raise: the first exception ends it. *)
Fixpoint for_each {St A} (body : St -> A -> result St) (st : St)
    (items : list A) : result St :=
  match items with
  | [] => Ok st
  | x :: rest => bind (body st x) (fun st' => for_each body st' rest)
  end.

End Py.

Import Py.

Declare Scope py_scope.
Delimit Scope py_scope with py.
Notation "x <- c ;; k" := (bind c (fun x => k))
  (at level 61, c at next level, right associativity) : py_scope.
Open Scope py_scope.

(** ** What the platform provides

    [unicodedata.normalize], [str.lower], [str.strip], the regex classes
    [\W] and [\s], and the syllabifier of the [greek_accentuation] library
    are not part of the program.  The program is modelled over any
    implementation of them. *)

Record Platform : Type := {
  nfd       : str -> str;        (* unicodedata.normalize('NFD', s) *)
  lower     : str -> str;        (* s.lower() *)
  strip     : str -> str;        (* s.strip() *)
  is_word   : char -> bool;      (* the character matches \w *)
  is_space  : char -> bool;      (* the character matches \s *)
  syllabify : str -> list str    (* greek_accentuation.syllabify.syllabify *)
}.

(** ** Character definitions *)

Module Chars.

Definition alpha   : char := 0x3b1%N.
Definition beta    : char := 0x3b2%N.
Definition gamma   : char := 0x3b3%N.
Definition delta   : char := 0x3b4%N.
Definition epsilon : char := 0x3b5%N.
Definition zeta    : char := 0x3b6%N.
Definition eta     : char := 0x3b7%N.
Definition theta   : char := 0x3b8%N.
Definition iota    : char := 0x3b9%N.
Definition kappa   : char := 0x3ba%N.
Definition lambda  : char := 0x3bb%N.
Definition mu      : char := 0x3bc%N.
Definition nu      : char := 0x3bd%N.
Definition xi      : char := 0x3be%N.
Definition omicron : char := 0x3bf%N.
Definition pi      : char := 0x3c0%N.
Definition rho     : char := 0x3c1%N.
Definition fsigma  : char := 0x3c2%N.   (* final sigma *)
Definition sigma   : char := 0x3c3%N.
Definition tau     : char := 0x3c4%N.
Definition upsilon : char := 0x3c5%N.
Definition phi     : char := 0x3c6%N.
Definition chi     : char := 0x3c7%N.
Definition psi     : char := 0x3c8%N.
Definition omega   : char := 0x3c9%N.
Definition lsigma  : char := 0x3f2%N.   (* lunate sigma *)

Definition VOWELS : list char :=
  [alpha; epsilon; eta; iota; omicron; upsilon; omega].

Definition LONG_VOWELS : list char := [eta; omega].

Definition SHORT_VOWELS : list char := [epsilon; omicron].

Definition DIPHTHONGS : list str :=
  [ [alpha; iota]; [epsilon; iota]; [omicron; iota]; [upsilon; iota];
    [alpha; upsilon]; [epsilon; upsilon]; [omicron; upsilon];
    [eta; upsilon] ].

Definition CONSONANTS : list char :=
  [ beta; gamma; delta; zeta; theta; kappa; lambda; mu; nu; xi;
    pi; rho; lsigma; sigma; fsigma; tau; phi; chi; psi ].

Definition DOUBLE_CONS : list char := [zeta; xi; psi].

Definition LONG_MARKS : list char :=
  [ 0x302%N;    (* combining circumflex *)
    0x304%N;    (* macron *)
    0x2c6%N;    (* another circumflex *)
    0x5e%N;     (* caret *)
    0x345%N;    (* iota subscript *)
    0x37a%N ].  (* another iota subscript *)

Definition SHORT_MARK : char := 0x306%N.

Definition MUTE_LIQUID : list str :=
  [ [theta; lambda]; [theta; rho]; [theta; mu]; [theta; nu];
    [kappa; lambda]; [kappa; rho]; [kappa; mu]; [kappa; nu];
    [pi; lambda]; [pi; rho]; [pi; nu]; [pi; mu];
    [tau; lambda]; [tau; rho]; [tau; nu]; [tau; mu];
    [phi; lambda]; [phi; rho]; [phi; nu]; [phi; mu];
    [chi; lambda]; [chi; rho]; [chi; nu]; [chi; mu];
    [beta; rho]; [gamma; rho]; [delta; rho] ].

Definition APOSTROPHE : char := 0x2bc%N.

(** The sentinel ['END'] that [scan_line] passes for the last syllable. *)
Definition END : str := [0x45%N; 0x4e%N; 0x44%N].

(** [re.search] of a character class: some character of [s] is in [cls]. *)
Definition search_class (cls : list char) (s : str) : bool :=
  existsb (fun c => char_in c cls) s.

(** [re.search] of an alternation of literals. *)
Definition search_any (alts : list str) (s : str) : bool :=
  existsb (fun a => substring_in a s) alts.

End Chars.

Import Chars.

(** ** Metrical symbols *)

Inductive Symbol : Type :=
| LONG      (* 'L' *)
| SHORT     (* 'S' *)
| UNKNOWN.  (* 'X' *)

Definition Symbol_eqb (a b : Symbol) : bool :=
  match a, b with
  | LONG, LONG | SHORT, SHORT | UNKNOWN, UNKNOWN => true
  | _, _ => false
  end.

(** A string over 'L', 'S', 'X'. *)
Definition meter := list Symbol.

(** ** greek_scansion.py *)

Section Scansion.

Variable P : Platform.

(** [strip_str]: the first code point of each character's
    decomposition, lowercased. *)
Fixpoint strip_chars (string : str) : result str :=
  match string with
  | [] => Ok []
  | ch :: rest =>
      bare_ch <- first (nfd P [ch]) ;;
      bare_rest <- strip_chars rest ;;
      Ok (bare_ch :: bare_rest)
  end.

Definition strip_str (string : str) : result str :=
  bare_str <- strip_chars string ;;
  Ok (lower P bare_str).

(** [alnum_syl]: drop the [\W] characters, then the apostrophes, then
    lowercase. *)
Definition alnum_syl (string : str) : str :=
  let text := filter (is_word P) string in
  let text := filter (fun c => negb (N.eqb c APOSTROPHE)) text in
  lower P text.

Definition natural_length (syl : str) : result Symbol :=
  bare_syl <- strip_str syl ;;
  let split_chs := nfd P syl in
  if search_class LONG_VOWELS bare_syl then Ok LONG
  else if search_any DIPHTHONGS bare_syl then Ok LONG
  else if search_class LONG_MARKS split_chs then Ok LONG
  else if search_class SHORT_VOWELS bare_syl then Ok SHORT
  else if char_in SHORT_MARK split_chs then Ok SHORT
  else Ok UNKNOWN.

(** The two loops of [positional_length] that build the consonant
    cluster.  The second collects the consonants at the start of the next
    syllable and stops at the first character that is no consonant; the
    first does the same on the reversed syllable, prepending. *)
Fixpoint leading_consonants (s : str) : str :=
  match s with
  | [] => []
  | ch :: rest =>
      if char_in ch CONSONANTS then ch :: leading_consonants rest else []
  end.

Definition trailing_consonants (s : str) : str :=
  rev (leading_consonants (rev s)).

Definition positional_length (syl next_syl : str) : result Symbol :=
  (* Check for wordbreak *)
  c1 <- last syl ;;
  c2 <- first next_syl ;;
  let wordbreak := existsb (is_space P) [c1; c2] in
  (* Clean extraneous markings from the ends of syllables *)
  let syl := alnum_syl syl in
  let next_syl := alnum_syl next_syl in
  let consonant_cluster :=
    trailing_consonants syl ++ leading_consonants next_syl in
  status <-
    (if (length consonant_cluster <=? 1)%nat then
       if search_class DOUBLE_CONS consonant_cluster then Ok LONG
       else Ok SHORT
     else
       if str_in consonant_cluster MUTE_LIQUID then
         if wordbreak then
           c <- last syl ;;
           if char_in c VOWELS then Ok SHORT else Ok UNKNOWN
         else Ok UNKNOWN
       else Ok LONG) ;;
  (* short syl can function as long at line end (final anceps) *)
  if str_eqb next_syl END && Symbol_eqb status SHORT then Ok UNKNOWN
  else Ok status.

(** The body of the loop of [scan_line], for a syllable and the one after
    it (or ['END']). *)
Definition syllable_length (syl next_syl : str) : result Symbol :=
  current_length <- natural_length syl ;;
  if negb (Symbol_eqb current_length LONG) then
    pos_len <- positional_length syl next_syl ;;
    if Symbol_eqb pos_len LONG then Ok LONG
    else if Symbol_eqb current_length SHORT then Ok pos_len
    else Ok current_length
  else Ok current_length.

(** [syl_list[i+1]], or ['END'] when [i] is the last index. *)
Definition next_of (rest : list str) : str :=
  match rest with
  | [] => END
  | next_syl :: _ => next_syl
  end.

Fixpoint scan_syllables (syl_list : list str) : result meter :=
  match syl_list with
  | [] => Ok []
  | syl :: rest =>
      current_length <- syllable_length syl (next_of rest) ;;
      meter_rest <- scan_syllables rest ;;
      Ok (current_length :: meter_rest)
  end.

Definition scan_line (line : str) : result meter :=
  let line := strip P line in
  scan_syllables (syllabify P line).

End Scansion.

(** ** scan_trimeter.py *)

Module Meter.

Definition symbol_of_ascii (a : Ascii.ascii) : Symbol :=
  if Ascii.eqb a "L"%char then LONG
  else if Ascii.eqb a "S"%char then SHORT
  else UNKNOWN.

(** The meter written as a literal: [of_string "SLSX"]. *)
Fixpoint of_string (s : String.string) : meter :=
  match s with
  | String.EmptyString => []
  | String.String a rest => symbol_of_ascii a :: of_string rest
  end.

Fixpoint eqb (a b : meter) : bool :=
  match a, b with
  | [], [] => true
  | x :: a', y :: b' => Symbol_eqb x y && eqb a' b'
  | _, _ => false
  end.

(** The rest of [s] after the literal [p], when [s] starts with it. *)
Fixpoint strip_prefix (p s : meter) : option meter :=
  match p, s with
  | [], _ => Some s
  | x :: p', y :: s' => if Symbol_eqb x y then strip_prefix p' s' else None
  | _ :: _, [] => None
  end.

(** [s.endswith(p)] *)
Definition ends_with (p s : meter) : bool :=
  match strip_prefix (rev p) (rev s) with
  | Some _ => true
  | None => false
  end.

End Meter.

Notation "'m:' s" := (Meter.of_string s%string) (at level 1, s at level 0,
  format "'m:' s").

(** A regular expression of the shape [^(?:a|b|..)(?:c|d|..)..$]: a
    sequence of groups, each an alternation of literals.  [regex.match]
    succeeds when some choice of one alternative per group spells the whole
    string. *)
Fixpoint match_groups (groups : list (list meter)) (s : meter) : bool :=
  match groups with
  | [] => match s with [] => true | _ :: _ => false end
  | alts :: groups' =>
      existsb
        (fun alt =>
           match Meter.strip_prefix alt s with
           | Some rest => match_groups groups' rest
           | None => false
           end)
        alts
  end.

Definition IAMBIC_NONFINAL : list (list meter) :=
  [ [m:"SS"; m:"L"; m:"S"; m:"X"; m:"SX"; m:"XS"];   (* anceps (with anapest) *)
    [m:"SS"; m:"L"; m:"X"; m:"SX"; m:"XS"];          (* long / resolved *)
    [m:"S"; m:"X"];                                  (* short *)
    [m:"SS"; m:"L"; m:"X"; m:"XS"; m:"SX"] ].        (* long / resolved *)

Definition IAMBIC_FINAL : list (list meter) :=
  [ [m:"SS"; m:"L"; m:"S"; m:"X"; m:"SX"; m:"XS"];   (* anceps (with anapest) *)
    [m:"SS"; m:"L"; m:"X"; m:"SX"; m:"XS"];          (* long / resolved *)
    [m:"S"; m:"X"];                                  (* short *)
    [m:"L"; m:"S"; m:"X"] ].                         (* final anceps *)

Definition is_iambic_metron (meter_string : meter) (final : bool) : bool :=
  let regex := if final then IAMBIC_FINAL else IAMBIC_NONFINAL in
  match_groups regex meter_string.

(** The regex that [fill_metron] builds from the observed metron, each 'X'
    turned into '.', anchored at both ends, matched against [x]. *)
Fixpoint wildcard_match (metron x : meter) : bool :=
  match metron, x with
  | [], [] => true
  | UNKNOWN :: metron', _ :: x' => wildcard_match metron' x'
  | c :: metron', d :: x' => Symbol_eqb c d && wildcard_match metron' x'
  | _, _ => false
  end.

Definition possible_metra : list meter :=
  [ m:"SSSSL";    (* first resolution *)
    m:"SLSSS";    (* second resolution *)
    m:"LSSSL";    (* first dactyl *)
    m:"SSLSL" ].  (* first anapest *)

Definition fill_metron (metron : meter) (final : bool) : result meter :=
  let n := length metron in
  if (n =? 4)%nat then
    m0 <- first metron ;;
    Ok (m0 :: m:"LSL")
  else if (n =? 6)%nat then
    m0 <- first metron ;;
    Ok (m0 :: m:"SSSSS")
  else if (n =? 5)%nat then
    let matches := filter (wildcard_match metron) possible_metra in
    filled <- first matches ;;
    if final then
      m_last <- last metron ;;
      if Symbol_eqb m_last UNKNOWN && negb (Meter.ends_with m:"SSS" filled)
      then Raise TypeError    (* filled[-1] = 'X', and filled is a str *)
      else Ok filled
    else Ok filled
  else Ok [].

(** The variables of the assembly loops. *)
Record state : Type := {
  trimeter  : list meter;
  current   : meter;
  is_last   : bool;
  countdown : Z
}.

(** The guard shared by both passes. *)
Definition accepts (current : meter) (is_last : bool) (countdown : Z) : bool :=
  is_iambic_metron current is_last && ((countdown =? 1)%Z || (countdown >? 4)%Z).

(** The loop body of [scan_trimeter], for the symbol [m]. *)
Definition back_step (st : state) (m : Symbol) : result state :=
  let current := m :: current st in
  if (length current <? 4)%nat then
    Ok {| trimeter := trimeter st; current := current;
          is_last := is_last st; countdown := countdown st |}
  else if accepts current (is_last st) (countdown st) then
    metron <- fill_metron current (is_last st) ;;
    Ok {| trimeter := metron :: trimeter st; current := [];
          is_last := false; countdown := (countdown st - 1)%Z |}
  else
    Ok {| trimeter := trimeter st; current := current;
          is_last := is_last st; countdown := countdown st |}.

(** The loop body of [scan_trimeter_2], for the symbol [m]. *)
Definition front_step (st : state) (m : Symbol) : result state :=
  let current := current st ++ [m] in
  if (length current <? 4)%nat then
    Ok {| trimeter := trimeter st; current := current;
          is_last := is_last st; countdown := countdown st |}
  else
    let is_last := if (countdown st =? 1)%Z then true else is_last st in
    if accepts current is_last (countdown st) then
      metron <- fill_metron current is_last ;;
      Ok {| trimeter := trimeter st ++ [metron]; current := [];
            is_last := is_last; countdown := (countdown st - 1)%Z |}
    else
      Ok {| trimeter := trimeter st; current := current;
            is_last := is_last; countdown := countdown st |}.

Definition initial (is_last : bool) (raw_meter : meter) : state :=
  {| trimeter := []; current := []; is_last := is_last;
     countdown := Z.of_nat (length raw_meter) |}.

(** The back-to-front loop of [scan_trimeter] on a raw meter. *)
Definition back_pass (raw_meter : meter) : result state :=
  for_each back_step (initial true raw_meter) (rev raw_meter).

(** The front-to-back loop of [scan_trimeter_2] on a raw meter. *)
Definition front_pass (raw_meter : meter) : result state :=
  for_each front_step (initial false raw_meter) raw_meter.

(** What [print] writes. *)
Inductive printed : Type :=
| PrText (s : String.string)
| PrLine (line : str)
| PrMeter (raw_meter : meter)
| PrBlank.

Section Trimeter.

Variable P : Platform.

Definition scan_trimeter_2 (line : str) : result (list meter) :=
  raw_meter <- scan_line P line ;;
  st <- front_pass raw_meter ;;
  Ok (trimeter st).

(** The value returned ([None] when the function falls off its end) and
    the lines printed. *)
Definition scan_trimeter (line : str) : result (option meter * list printed) :=
  raw_meter <- scan_line P line ;;
  st <- back_pass raw_meter ;;
  if (length (trimeter st) =? 3)%nat then
    Ok (Some (concat (trimeter st)), [])
  else
    trimeter2 <- scan_trimeter_2 line ;;
    if (length trimeter2 =? 3)%nat then
      Ok (Some (concat trimeter2), [])
    else
      Ok (None,
          [ PrText "FAILED TO SCAN LINE:"%string; PrLine line;
            PrMeter raw_meter; PrBlank ]).

End Trimeter.

(** ** A reference platform for concrete lines

    The general results below hold for every [Platform].  To run the
    program on concrete text, [Ref.platform] implements the platform
    functions on the characters the examples use: ASCII and the unaccented
    lowercase Greek letters, with the seven vowels that carry a tonos.
    Case mapping, decomposition and the classes [\w] and [\s] are
    CPython's on these characters.  The syllabifier cuts after every
    vowel, which is the syllabification of a line made of consonants each
    followed by a single vowel, with no diphthong; the example lines are of
    that form.  Outside this range [Ref.platform] is an approximation (no
    other decomposition, no final-sigma rule). *)

Module Ref.

Local Open Scope N_scope.

Definition in_range (lo hi c : char) : bool :=
  (N.leb lo c && N.leb c hi)%bool.

Definition lower_char (c : char) : char :=
  if in_range 0x41 0x5a c then (c + 32)%N                (* A-Z *)
  else if N.eqb c 0x3a2 then c                            (* unassigned *)
  else if in_range 0x391 0x3a9 c then (c + 32)%N          (* capital Greek *)
  else c.

(** Canonical decomposition of one code point. *)
Definition decompose (c : char) : str :=
  if N.eqb c 0x3ac then [alpha; 0x301%N]
  else if N.eqb c 0x3ad then [epsilon; 0x301%N]
  else if N.eqb c 0x3ae then [eta; 0x301%N]
  else if N.eqb c 0x3af then [iota; 0x301%N]
  else if N.eqb c 0x3cc then [omicron; 0x301%N]
  else if N.eqb c 0x3cd then [upsilon; 0x301%N]
  else if N.eqb c 0x3ce then [omega; 0x301%N]
  else [c].

Definition word_char (c : char) : bool :=
  in_range 0x30 0x39 c || in_range 0x41 0x5a c || in_range 0x61 0x7a c
  || N.eqb c 0x5f                                         (* underscore *)
  || N.eqb c APOSTROPHE                                   (* a letter, Lm *)
  || (in_range 0x391 0x3a9 c && negb (N.eqb c 0x3a2))
  || in_range 0x3ac 0x3ce c
  || N.eqb c lsigma.

Definition space_char (c : char) : bool :=
  in_range 0x09 0x0d c || in_range 0x1c 0x1f c || N.eqb c 0x20
  || N.eqb c 0x85 || N.eqb c 0xa0.

Fixpoint lstrip (s : str) : str :=
  match s with
  | [] => []
  | c :: rest => if space_char c then lstrip rest else s
  end.

Definition strip_spaces (s : str) : str :=
  rev (lstrip (rev (lstrip s))).

(** The syllables of a line of open syllables: a cut after every vowel.
    [cur] is the syllable under construction, reversed. *)
Fixpoint open_syllables (cur : str) (line : str) : list str :=
  match line with
  | [] => match cur with [] => [] | _ :: _ => [rev cur] end
  | c :: rest =>
      if char_in c VOWELS then rev (c :: cur) :: open_syllables [] rest
      else open_syllables (c :: cur) rest
  end.

Definition platform : Platform :=
  {| nfd := fun s => flat_map decompose s;
     lower := map lower_char;
     strip := strip_spaces;
     is_word := word_char;
     is_space := space_char;
     syllabify := open_syllables [] |}.

End Ref.

(** Example lines. *)
Module Lines.

(** "πετρα" *)
Definition petra : str := [pi; epsilon; tau; rho; alpha].

(** "αλα" *)
Definition ala : str := [alpha; lambda; alpha].

(** "πεπεπεπεπα" *)
Definition pepepepepa : str :=
  [pi; epsilon; pi; epsilon; pi; epsilon; pi; epsilon; pi; alpha].

Definition pepe : str := [pi; epsilon; pi; eta; pi; epsilon; pi; eta].

(** "απεπηπεπηπεπηπεπηπεπηπεπη": α, then six times πεπη. *)
Definition a_pepe3 : str := alpha :: pepe ++ pepe ++ pepe.

(** "πεπηπεπηπηπεπεπεπηπεπηπεπη": the middle metron is a dactyl, LSSSL. *)
Definition dactyl_line : str :=
  pepe ++ [pi; eta; pi; epsilon; pi; epsilon; pi; epsilon; pi; eta] ++ pepe.

(** "πεπηπεπηπηπηπεπεπεπεπηπεπη": the middle metron is LLSSS. *)
Definition spondee_line : str :=
  pepe ++ [pi; eta; pi; eta; pi; epsilon; pi; epsilon; pi; epsilon] ++ pepe.

(** "πεπηπεπηπεπεπηπεπηπεπηπεπη": the middle metron is an anapaest,
    SSLSL; only the front-to-back pass finds three metra. *)
Definition anapaest_line : str :=
  pepe ++ [pi; epsilon; pi; epsilon; pi; eta; pi; epsilon; pi; eta] ++ pepe.

End Lines.

(** ** Definitions used to state the properties *)

(** The combination rule of [scan_line] as the specification words it:
    natural LONG stays; else positional LONG wins; else natural SHORT
    stays; else the positional result. *)
Definition spec_combined_length (natural positional : Symbol) : Symbol :=
  match natural with
  | LONG => LONG
  | _ =>
      match positional with
      | LONG => LONG
      | _ => match natural with SHORT => SHORT | _ => positional end
      end
  end.

(** [scan_syllables] gives every syllable the symbol that [rule] computes
    from its natural length and its positional length against the next
    syllable (or ['END']). *)
Definition combines_by (P : Platform) (rule : Symbol -> Symbol -> Symbol)
  : Prop :=
  forall syl_list meter i syl natural positional,
    scan_syllables P syl_list = Ok meter ->
    nth_error syl_list i = Some syl ->
    natural_length P syl = Ok natural ->
    positional_length P syl (next_of (skipn (S i) syl_list)) = Ok positional ->
    nth_error meter i = Some (rule natural positional).

(** The state of a loop after some of its iterations: [items] is what the
    loop runs over, [st] the state reached before the iteration on [x]. *)
Definition before_iteration {St A} (body : St -> A -> result St) (st0 : St)
    (items : list A) (st : St) (x : A) : Prop :=
  exists done rest,
    items = done ++ x :: rest /\ for_each body st0 done = Ok st.

(** [fill_metron metron final] is called by one of the two passes over
    [raw_meter]: the loop reaches an iteration where [metron] is the
    current buffer and the guard holds. *)
Definition handed_to_fill (raw_meter metron : meter) (final : bool) : Prop :=
  (exists st m,
      before_iteration back_step (initial true raw_meter) (rev raw_meter) st m /\
      metron = m :: current st /\
      final = is_last st /\
      (4 <= length metron)%nat /\
      accepts metron final (countdown st) = true)
  \/
  (exists st m,
      before_iteration front_step (initial false raw_meter) raw_meter st m /\
      metron = current st ++ [m] /\
      final = (if (countdown st =? 1)%Z then true else is_last st) /\
      (4 <= length metron)%nat /\
      accepts metron final (countdown st) = true).

(** [front_step] with the final flag fixed to [False]. *)
Definition front_step_nonfinal (st : state) (m : Symbol) : result state :=
  let current := current st ++ [m] in
  if (length current <? 4)%nat then
    Ok {| trimeter := trimeter st; current := current;
          is_last := false; countdown := countdown st |}
  else if accepts current false (countdown st) then
    metron <- fill_metron current false ;;
    Ok {| trimeter := trimeter st ++ [metron]; current := [];
          is_last := false; countdown := (countdown st - 1)%Z |}
  else
    Ok {| trimeter := trimeter st; current := current;
          is_last := false; countdown := countdown st |}.

(** All meter strings of a given length. *)
Fixpoint all_meters (n : nat) : list meter :=
  match n with
  | O => [[]]
  | S n' =>
      flat_map (fun s => [LONG :: s; SHORT :: s; UNKNOWN :: s]) (all_meters n')
  end.

(** Invariants of the assembly loops.

    [pending_rejected]: the buffer, once it has 4 symbols, was refused by
    the guard in the iteration that built it. *)
Definition pending_rejected (st : state) : Prop :=
  (4 <= length (current st))%nat ->
  accepts (current st) (is_last st) (countdown st) = false.

(** [filled] is what [fill_metron] made of a metron of 4 to 6 symbols that
    the grammar accepts, and has as many symbols. *)
Definition filled_metron (filled : meter) : Prop :=
  exists metron final,
    is_iambic_metron metron final = true /\
    fill_metron metron final = Ok filled /\
    (4 <= length metron <= 6)%nat /\
    length filled = length metron.

Definition pass_inv (st : state) : Prop :=
  pending_rejected st /\ Forall filled_metron (trimeter st).

(** The front-to-back loop over a raw meter of [n] symbols, after [c] of
    them: the countdown is [n] less the metra formed, and every metron
    formed took at least 4 symbols. *)
Definition front_inv (n c : nat) (st : state) : Prop :=
  is_last st = false /\
  countdown st = (Z.of_nat n - Z.of_nat (length (trimeter st)))%Z /\
  (4 * length (trimeter st) + length (current st) <= c)%nat.

(** The list of metra kept at the end of [scan_trimeter.py] for future
    versions. *)
Definition POSSIBLE_METRA : list meter :=
  [ m:"SLSL";      (* two iambs *)
    m:"LLSL";      (* anceps long *)
    m:"SSSSL";     (* first resolution *)
    m:"SLSSS";     (* second resolution *)
    m:"LSSSL";     (* first dactyl *)
    m:"SSLSL";     (* first anapest *)
    m:"SSSSSS" ].  (* both resolutions *)

(** The consonants between two vowel clusters, as [positional_length]
    collects them from the two cleaned syllables. *)
Definition consonant_cluster (syl next_syl : str) : str :=
  trailing_consonants syl ++ leading_consonants next_syl.

(** One metron formed by a pass: the buffer that was matched, the final
    flag it was matched and filled with, and what [fill_metron] returned. *)
Definition part : Type := (meter * bool * meter)%type.

Definition matched_of (p : part) : meter := fst (fst p).
Definition final_of (p : part) : bool := snd (fst p).
Definition filled_of (p : part) : meter := snd p.

Definition part_ok (p : part) : Prop :=
  is_iambic_metron (matched_of p) (final_of p) = true /\
  fill_metron (matched_of p) (final_of p) = Ok (filled_of p) /\
  (4 <= length (matched_of p) <= 6)%nat.

(** The back-to-front loop over a raw meter of [n] symbols, after the
    symbols [done] (taken from the end of the line): the symbols seen are
    the buffer followed by the metra matched so far, and only the metron
    formed first, the last of the line, was matched as final. *)
Definition back_trace (n : nat) (done : meter) (st : state) : Prop :=
  pending_rejected st /\
  countdown st = (Z.of_nat n - Z.of_nat (length (trimeter st)))%Z /\
  exists parts : list part,
    trimeter st = map filled_of parts /\
    rev done = current st ++ concat (map matched_of parts) /\
    Forall part_ok parts /\
    ((parts = [] /\ is_last st = true) \/
     (is_last st = false /\
      exists init c m,
        parts = init ++ [(c, true, m)] /\
        Forall (fun p => final_of p = false) init)).

(** The front-to-back loop, after the symbols [done]. *)
Definition front_trace (n : nat) (done : meter) (st : state) : Prop :=
  pending_rejected st /\
  is_last st = false /\
  countdown st = (Z.of_nat n - Z.of_nat (length (trimeter st)))%Z /\
  exists parts : list part,
    trimeter st = map filled_of parts /\
    done = concat (map matched_of parts) ++ current st /\
    Forall part_ok parts /\
    Forall (fun p => final_of p = false) parts.

(** The diagnostic that [scan_trimeter] prints when it gives up. *)
Definition failure_report (line : str) (raw_meter : meter) : list printed :=
  [ PrText "FAILED TO SCAN LINE:"%string; PrLine line;
    PrMeter raw_meter; PrBlank ].

(** Bounds on the length of each alternative of each group of a grammar:
    [alternative] checks one group, [alternatives] all of them. *)
Ltac alternative :=
  let a := fresh "a" in
  let Hin := fresh "Hin" in
  intros a Hin; simpl in Hin;
  repeat (destruct Hin as [<-|Hin]; [simpl; lia|]);
  contradiction.

Ltac alternatives :=
  repeat (apply Forall2_cons; [alternative|]); apply Forall2_nil.

(** ** Properties of the error monad and of loops *)

Lemma bind_ok {A B} (r : result A) (k : A -> result B) (b : B) :
  bind r k = Ok b -> exists a, r = Ok a /\ k a = Ok b.
Proof.
  destruct r as [a|e]; simpl; intros H.
  - exists a; split; [reflexivity | exact H].
  - discriminate H.
Qed.

Lemma for_each_app {St A} (body : St -> A -> result St) (xs ys : list A) :
  forall st,
    for_each body st (xs ++ ys) =
    bind (for_each body st xs) (fun st' => for_each body st' ys).
Proof.
  induction xs as [|x xs IH]; intros st; simpl.
  - reflexivity.
  - destruct (body st x) as [st1|e]; simpl; [apply IH | reflexivity].
Qed.

(** An invariant of the loop body holds in every state the loop reaches. *)
Lemma for_each_invariant {St A} (Inv : St -> Prop)
    (body : St -> A -> result St) :
  (forall st x st', Inv st -> body st x = Ok st' -> Inv st') ->
  forall items st st',
    Inv st -> for_each body st items = Ok st' -> Inv st'.
Proof.
  intros Hstep items.
  induction items as [|x rest IH]; intros st st' Hinv H; simpl in H.
  - injection H as <-. exact Hinv.
  - apply bind_ok in H as (st1 & H1 & H2). eauto.
Qed.

Lemma Symbol_eqb_eq (a b : Symbol) : Symbol_eqb a b = true <-> a = b.
Proof.
  destruct a, b; simpl; split; intros H; try reflexivity; discriminate H.
Qed.

(** ** Syllable lengths *)

Section ScansionFacts.

Variable P : Platform.

Lemma search_class_In (cls : list char) (s : str) (c : char) :
  In c s -> In c cls -> search_class cls s = true.
Proof.
  intros Hs Hc. unfold search_class. apply existsb_exists.
  exists c; split; [exact Hs|].
  unfold char_in. apply existsb_exists.
  exists c; split; [exact Hc | apply N.eqb_refl].
Qed.

(** Every symbol of the scanned meter is the [syllable_length] of the
    syllable at the same index. *)
Lemma scan_syllables_nth :
  forall syl_list scanned,
    scan_syllables P syl_list = Ok scanned ->
    length scanned = length syl_list /\
    forall i syl,
      nth_error syl_list i = Some syl ->
      exists sym,
        nth_error scanned i = Some sym /\
        syllable_length P syl (next_of (skipn (S i) syl_list)) = Ok sym.
Proof.
  induction syl_list as [|s0 rest IH]; intros scanned H; simpl in H.
  - injection H as <-. split; [reflexivity|].
    intros [|i] syl Hi; discriminate Hi.
  - apply bind_ok in H as (sym0 & Hsym0 & H).
    apply bind_ok in H as (tail & Htail & H).
    injection H as <-.
    destruct (IH _ Htail) as [Hlen Hnth].
    split; [simpl; now rewrite Hlen|].
    intros [|i] syl Hi; simpl in Hi.
    + injection Hi as <-. exists sym0. split; [reflexivity | exact Hsym0].
    + destruct (Hnth i syl Hi) as (sym & Hs1 & Hs2).
      exists sym. split; [exact Hs1 | exact Hs2].
Qed.

(** The scan returns as soon as every syllable has a length. *)
Lemma scan_syllables_returns :
  forall syl_list,
    (forall i syl,
        nth_error syl_list i = Some syl ->
        is_ok (syllable_length P syl (next_of (skipn (S i) syl_list))) = true) ->
    exists scanned, scan_syllables P syl_list = Ok scanned.
Proof.
  induction syl_list as [|s0 rest IH]; intros Hall; simpl.
  - now exists [].
  - pose proof (Hall 0%nat s0 eq_refl) as H0. simpl in H0.
    destruct (syllable_length P s0 (next_of rest)) as [sym0|e];
      [|discriminate H0].
    destruct IH as [tail Htail].
    + intros i syl Hi. exact (Hall (S i) syl Hi).
    + rewrite Htail. simpl. now exists (sym0 :: tail).
Qed.

(** What the loop body of [scan_line] makes of the two lengths. *)
Lemma syllable_length_cases (syl next_syl : str) (sym : Symbol) :
  syllable_length P syl next_syl = Ok sym ->
  exists natural,
    natural_length P syl = Ok natural /\
    (natural = LONG -> sym = LONG) /\
    (natural <> LONG ->
     exists positional,
       positional_length P syl next_syl = Ok positional /\
       (positional = LONG -> sym = LONG) /\
       (positional <> LONG -> natural = SHORT -> sym = positional) /\
       (positional <> LONG -> natural = UNKNOWN -> sym = UNKNOWN)).
Proof.
  unfold syllable_length. intros H.
  apply bind_ok in H as (natural & Hnat & H).
  exists natural. split; [exact Hnat|].
  destruct natural; simpl in H.
  - injection H as <-. split; [reflexivity | intros Hn; now elim Hn].
  - split; [discriminate|]. intros _.
    apply bind_ok in H as (positional & Hpos & H).
    exists positional. split; [exact Hpos|].
    destruct positional; simpl in H; injection H as <-;
      repeat split; intros; congruence.
  - split; [discriminate|]. intros _.
    apply bind_ok in H as (positional & Hpos & H).
    exists positional. split; [exact Hpos|].
    destruct positional; simpl in H; injection H as <-;
      repeat split; intros; congruence.
Qed.

End ScansionFacts.

(** C1 (as amended): for every syllable of a line, [scan_line] keeps a
    natural LONG; otherwise a positional LONG (against the next syllable, or
    the END sentinel for the last one) makes the syllable LONG; otherwise a
    natural SHORT takes the positional result (SHORT or UNKNOWN), and a
    natural UNKNOWN stays UNKNOWN. *)
Theorem scan_line_combination (P : Platform) (line : str) (scanned : meter) :
  scan_line P line = Ok scanned ->
  let syl_list := syllabify P (strip P line) in
  length scanned = length syl_list /\
  forall i syl,
    nth_error syl_list i = Some syl ->
    exists natural,
      natural_length P syl = Ok natural /\
      (natural = LONG -> nth_error scanned i = Some LONG) /\
      (natural <> LONG ->
       exists positional,
         positional_length P syl (next_of (skipn (S i) syl_list))
           = Ok positional /\
         (positional = LONG -> nth_error scanned i = Some LONG) /\
         (positional <> LONG -> natural = SHORT ->
          nth_error scanned i = Some positional) /\
         (positional <> LONG -> natural = UNKNOWN ->
          nth_error scanned i = Some UNKNOWN)).
Proof.
  unfold scan_line. cbv zeta. intros H.
  destruct (scan_syllables_nth P _ _ H) as [Hlen Hnth].
  split; [exact Hlen|].
  intros i syl Hi.
  destruct (Hnth i syl Hi) as (sym & Hsym & Hbody).
  destruct (syllable_length_cases P _ _ _ Hbody) as (natural & Hnat & HL & Hrest).
  exists natural. split; [exact Hnat|]. split.
  - intros Hn. rewrite Hsym. f_equal. auto.
  - intros Hn. destruct (Hrest Hn) as (positional & Hpos & H1 & H2 & H3).
    exists positional. split; [exact Hpos|].
    repeat split; intros; rewrite Hsym; f_equal; auto.
Qed.

(** On "πετρα" the line scans, and its first syllable, short by nature
    before a mute and a liquid, comes out UNKNOWN. *)
Lemma scan_line_combination_witness :
  scan_line Ref.platform Lines.petra = Ok m:"XX" /\
  exists natural positional,
    natural_length Ref.platform [pi; epsilon] = Ok natural /\
    positional_length Ref.platform [pi; epsilon] [tau; rho; alpha]
      = Ok positional /\
    natural = SHORT /\ positional = UNKNOWN /\
    nth_error m:"XX" 0 = Some positional.
Proof.
  split; [reflexivity|].
  pose proof (scan_line_combination Ref.platform Lines.petra m:"XX" eq_refl)
    as Hc.
  cbv zeta in Hc. destruct Hc as [_ H].
  destruct (H 0%nat [pi; epsilon] eq_refl) as (natural & Hnat & _ & Hrest).
  exists natural, UNKNOWN.
  split; [exact Hnat|].
  split; [reflexivity|].
  split; [vm_compute in Hnat; congruence|].
  split; reflexivity.
Defined.

(** C1 (as stated) fails: the rule of the specification keeps a natural
    SHORT and lets a positional SHORT resolve a natural UNKNOWN.  In
    "πετρα" the first syllable is SHORT by nature and UNKNOWN by position,
    and [scan_line] gives UNKNOWN; in "αλα" the first syllable is UNKNOWN by
    nature and SHORT by position, and [scan_line] gives UNKNOWN. *)
Lemma scan_line_spec_rule_fails :
  ~ combines_by Ref.platform spec_combined_length /\
  (natural_length Ref.platform [pi; epsilon] = Ok SHORT /\
   positional_length Ref.platform [pi; epsilon] [tau; rho; alpha]
     = Ok UNKNOWN /\
   scan_line Ref.platform Lines.petra = Ok m:"XX" /\
   spec_combined_length SHORT UNKNOWN = SHORT) /\
  (natural_length Ref.platform [alpha] = Ok UNKNOWN /\
   positional_length Ref.platform [alpha] [lambda; alpha] = Ok SHORT /\
   scan_line Ref.platform Lines.ala = Ok m:"XX" /\
   spec_combined_length UNKNOWN SHORT = SHORT).
Proof.
  split; [|split; repeat split; reflexivity].
  intros H.
  specialize (H [[pi; epsilon]; [tau; rho; alpha]] m:"XX" 0%nat [pi; epsilon]
                SHORT UNKNOWN eq_refl eq_refl eq_refl eq_refl).
  discriminate H.
Qed.

(** C9: a syllable whose diacritic-stripped form contains η or ω is LONG by
    nature, whatever else the syllable carries: the long-vowel rule is the
    first one tried. *)
Theorem natural_length_long_vowel (P : Platform) (syl bare_syl : str) :
  strip_str P syl = Ok bare_syl ->
  In eta bare_syl \/ In omega bare_syl ->
  natural_length P syl = Ok LONG.
Proof.
  intros Hstrip Hin. unfold natural_length. rewrite Hstrip. simpl.
  assert (search_class LONG_VOWELS bare_syl = true) as ->; [|reflexivity].
  destruct Hin as [Hin|Hin].
  - apply (search_class_In _ _ eta Hin). left. reflexivity.
  - apply (search_class_In _ _ omega Hin). right. left. reflexivity.
Qed.

(** η under a combining breve is LONG. *)
Lemma natural_length_long_vowel_witness :
  strip_str Ref.platform [eta; SHORT_MARK] = Ok [eta; SHORT_MARK] /\
  In eta [eta; SHORT_MARK] /\
  natural_length Ref.platform [eta; SHORT_MARK] = Ok LONG.
Proof.
  split; [reflexivity|].
  split; [left; reflexivity|].
  apply (natural_length_long_vowel Ref.platform [eta; SHORT_MARK]
           [eta; SHORT_MARK]).
  - reflexivity.
  - left. left. reflexivity.
Defined.

(** C2 (the code departs from it): [positional_length] compares the next
    syllable with ['END'] after [alnum_syl] has lowercased it to ['end'], so
    the remapping never applies: for "ε" and for "πα" at the end of a line
    the positional length is SHORT. *)
Theorem positional_length_END_is_short :
  alnum_syl Ref.platform END = [0x65; 0x6e; 0x64]%N /\
  str_eqb (alnum_syl Ref.platform END) END = false /\
  positional_length Ref.platform [epsilon] END = Ok SHORT /\
  positional_length Ref.platform [pi; alpha] END = Ok SHORT.
Proof.
  repeat split; reflexivity.
Qed.

(** C7 (the code departs from it): for a final 5-symbol metron that ends in
    X and whose first matching candidate does not end in "SSS", the
    restoration step assigns to an index of a str, and the call raises
    [TypeError]. *)
Theorem fill_metron_final_anceps_raises (metron filled : meter) :
  length metron = 5%nat ->
  last metron = Ok UNKNOWN ->
  first (filter (wildcard_match metron) possible_metra) = Ok filled ->
  Meter.ends_with m:"SSS" filled = false ->
  fill_metron metron true = Raise TypeError.
Proof.
  intros Hlen Hlast Hfirst Hends.
  unfold fill_metron. rewrite Hlen. cbn [Nat.eqb].
  rewrite Hfirst. cbn [bind]. rewrite Hlast. cbn [bind Symbol_eqb andb].
  rewrite Hends. reflexivity.
Qed.

(** "SSSSX" as the final metron: the first candidate is "SSSSL". *)
Lemma fill_metron_final_anceps_raises_witness :
  is_iambic_metron m:"SSSSX" true = true /\
  first (filter (wildcard_match m:"SSSSX") possible_metra) = Ok m:"SSSSL" /\
  fill_metron m:"SSSSX" true = Raise TypeError.
Proof.
  split; [reflexivity|].
  split; [reflexivity|].
  apply (fill_metron_final_anceps_raises m:"SSSSX" m:"SSSSL"); reflexivity.
Defined.

(** [fill_metron] on a 5-symbol metron without X: the four candidates come
    back unchanged, every other string raises [IndexError]. *)
Lemma fill_metron_specified (metron : meter) (final : bool) :
  length metron = 5%nat ->
  ~ In UNKNOWN metron ->
  fill_metron metron final =
  if existsb (Meter.eqb metron) possible_metra then Ok metron
  else Raise IndexError.
Proof.
  intros Hlen HX.
  destruct metron as [|a [|b [|c [|d [|e [|? ?]]]]]]; try discriminate Hlen.
  destruct a; try (exfalso; apply HX; simpl; tauto);
  destruct b; try (exfalso; apply HX; simpl; tauto);
  destruct c; try (exfalso; apply HX; simpl; tauto);
  destruct d; try (exfalso; apply HX; simpl; tauto);
  destruct e; try (exfalso; apply HX; simpl; tauto);
  destruct final; reflexivity.
Qed.

(** C6 (the code departs from it): "LLSSS" is a 5-symbol metron without X
    that the non-final grammar accepts, and no candidate of the ranked list
    matches it: [fill_metron] raises [IndexError].  The same happens to the
    final metra "SSLSS", "LSSSS" and "SSSSS". *)
Theorem fill_metron_specified_raises :
  is_iambic_metron m:"LLSSS" false = true /\
  fill_metron m:"LLSSS" false = Raise IndexError /\
  forall metron,
    In metron [m:"SSLSS"; m:"LSSSS"; m:"SSSSS"] ->
    is_iambic_metron metron true = true /\
    fill_metron metron true = Raise IndexError.
Proof.
  split; [reflexivity|]. split; [reflexivity|].
  intros metron [<-|[<-|[<-|[]]]]; split; reflexivity.
Qed.

(** C3 (the code departs from it): on "πεπεπεπεπα" the raw meter is "SSSSX",
    the back-to-front pass takes it as its final metron and [fill_metron]
    raises [TypeError], which leaves [scan_trimeter]; on
    "πεπηπεπηπηπηπεπεπεπεπηπεπη" the middle metron is "LLSSS" and
    [IndexError] leaves it. *)
Theorem scan_trimeter_raises :
  (scan_line Ref.platform Lines.pepepepepa = Ok m:"SSSSX" /\
   scan_trimeter Ref.platform Lines.pepepepepa = Raise TypeError) /\
  (scan_line Ref.platform Lines.spondee_line = Ok m:"SLSLLLSSSSLSL" /\
   scan_trimeter Ref.platform Lines.spondee_line = Raise IndexError).
Proof.
  repeat split; vm_compute; reflexivity.
Qed.

(** C4 (the code departs from it): on "απεπηπεπηπεπηπεπηπεπηπεπη" the raw
    meter has 13 symbols, the back-to-front pass forms three metra from the
    last 12 and the scan succeeds with 12 symbols: the first symbol is in
    no metron. *)
Theorem scan_trimeter_strands_symbol :
  scan_line Ref.platform Lines.a_pepe3 = Ok m:"XSLSLSLSLSLSL" /\
  scan_trimeter Ref.platform Lines.a_pepe3 = Ok (Some m:"SLSLSLSLSLSL", []) /\
  length m:"XSLSLSLSLSLSL" = 13%nat /\
  length m:"SLSLSLSLSLSL" = 12%nat.
Proof.
  repeat split; vm_compute; reflexivity.
Qed.

(** ** The fallback pass never uses the final grammar *)

Lemma front_step_inv (n c : nat) (st : state) (m : Symbol) :
  front_inv n c st ->
  (c + 1 <= n)%nat ->
  front_step st m = front_step_nonfinal st m /\
  ((4 <= length (current st ++ [m]))%nat -> countdown st <> 1%Z) /\
  forall st', front_step st m = Ok st' -> front_inv n (c + 1) st'.
Proof.
  destruct st as [tri cur il cd]. unfold front_inv. simpl.
  intros (Hil & Hcd & Hlen) Hc. subst il.
  assert ((4 <= length (cur ++ [m]))%nat -> cd <> 1%Z) as Hne.
  { rewrite length_app. simpl. lia. }
  unfold front_step, front_step_nonfinal. simpl.
  destruct (Nat.ltb_spec (length (cur ++ [m])) 4) as [Hlt|Hge].
  - split; [reflexivity|]. split; [exact Hne|].
    intros st' H. injection H as <-. simpl.
    rewrite length_app in *. simpl in *. repeat split; lia.
  - pose proof (Hne Hge) as Hcd1.
    apply Z.eqb_neq in Hcd1. rewrite Hcd1.
    split; [reflexivity|]. split; [exact Hne|].
    intros st' H.
    destruct (accepts (cur ++ [m]) false cd).
    + apply bind_ok in H as (metron & _ & H). injection H as <-. simpl.
      rewrite length_app in *. simpl in *. repeat split; lia.
    + injection H as <-. simpl.
      rewrite length_app in *. simpl in *. repeat split; lia.
Qed.

Lemma front_loop_inv (n : nat) :
  forall items c st,
    front_inv n c st ->
    (c + length items <= n)%nat ->
    for_each front_step st items = for_each front_step_nonfinal st items /\
    forall st',
      for_each front_step st items = Ok st' ->
      front_inv n (c + length items) st'.
Proof.
  induction items as [|x rest IH]; intros c st Hinv Hc; simpl in *.
  - split; [reflexivity|]. intros st' H. injection H as <-.
    now rewrite Nat.add_0_r.
  - destruct (front_step_inv n c st x Hinv) as (Heq & _ & Hstep); [lia|].
    rewrite <- Heq.
    destruct (front_step st x) as [st1|e]; simpl.
    + destruct (IH (c + 1)%nat st1 (Hstep _ eq_refl)) as [Heq' Hinv']; [lia|].
      split; [exact Heq'|]. intros st' H.
      replace (c + S (length rest))%nat with (c + 1 + length rest)%nat by lia.
      auto.
    + split; [reflexivity | discriminate].
Qed.

Lemma front_inv_initial (raw_meter : meter) :
  front_inv (length raw_meter) 0 (initial false raw_meter).
Proof.
  unfold front_inv, initial. simpl. repeat split; lia.
Qed.

(** The fallback pass over any raw meter never sets the final flag. *)
Lemma front_pass_nonfinal (raw_meter : meter) :
  (forall st m,
      before_iteration front_step (initial false raw_meter) raw_meter st m ->
      is_last st = false /\
      ((4 <= length (current st ++ [m]))%nat -> countdown st <> 1%Z)) /\
  (forall st, front_pass raw_meter = Ok st -> is_last st = false) /\
  front_pass raw_meter =
  for_each front_step_nonfinal (initial false raw_meter) raw_meter.
Proof.
  pose proof (front_inv_initial raw_meter) as H0.
  split; [|split].
  - intros st m (done & rest & Hsplit & Hrun).
    assert (length raw_meter = length done + S (length rest))%nat as Hlen.
    { rewrite Hsplit at 1. rewrite length_app. reflexivity. }
    destruct (front_loop_inv (length raw_meter) done 0%nat _ H0)
      as [_ Hinv]; [simpl; lia|].
    specialize (Hinv _ Hrun). simpl in Hinv.
    split; [apply Hinv|].
    destruct (front_step_inv _ _ st m Hinv) as (_ & Hne & _); [lia|].
    exact Hne.
  - intros st Hrun.
    destruct (front_loop_inv (length raw_meter) raw_meter 0%nat _ H0)
      as [_ Hinv]; [simpl; lia|].
    apply (Hinv _ Hrun).
  - destruct (front_loop_inv (length raw_meter) raw_meter 0%nat _ H0)
      as [Heq _]; [simpl; lia|].
    exact Heq.
Qed.

(** C10: in the front-to-back pass over a raw meter of at least 2 symbols,
    the test [countdown == 1] fails whenever it is reached, the final flag
    is [False] before every iteration and at the end, and the pass is the
    same loop with the final flag fixed to [False] in the grammar and in the
    fill. *)
Theorem front_pass_never_final (raw_meter : meter) :
  (2 <= length raw_meter)%nat ->
  (forall st m,
      before_iteration front_step (initial false raw_meter) raw_meter st m ->
      is_last st = false /\
      ((4 <= length (current st ++ [m]))%nat -> countdown st <> 1%Z)) /\
  (forall st, front_pass raw_meter = Ok st -> is_last st = false) /\
  front_pass raw_meter =
  for_each front_step_nonfinal (initial false raw_meter) raw_meter.
Proof.
  intros _. apply front_pass_nonfinal.
Qed.

(** The fallback pass over "SLSLSSLSLSLSL". *)
Lemma front_pass_never_final_witness :
  (2 <= length m:"SLSLSSLSLSLSL")%nat /\
  front_pass m:"SLSLSSLSLSLSL" =
  Ok {| trimeter := [m:"SLSL"; m:"SSLSL"; m:"SLSL"]; current := [];
        is_last := false; countdown := 10 |} /\
  front_pass m:"SLSLSSLSLSLSL" =
  for_each front_step_nonfinal (initial false m:"SLSLSSLSLSLSL")
    m:"SLSLSSLSLSLSL".
Proof.
  assert (2 <= length m:"SLSLSSLSLSLSL")%nat as Hlen by (simpl; lia).
  split; [exact Hlen|].
  split; [reflexivity|].
  apply (front_pass_never_final m:"SLSLSSLSLSLSL" Hlen).
Defined.

(** ** Lengths of accepted metra *)

Lemma strip_prefix_app (p : meter) :
  forall s rest, Meter.strip_prefix p s = Some rest -> s = p ++ rest.
Proof.
  induction p as [|x p IH]; simpl; intros s rest H.
  - injection H as ->. reflexivity.
  - destruct s as [|y s]; [discriminate H|].
    destruct (Symbol_eqb x y) eqn:E; [|discriminate H].
    apply Symbol_eqb_eq in E. subst y. f_equal. auto.
Qed.

(** A string spelled by one alternative per group is as long as the
    alternatives allow. *)
Lemma match_groups_bounds :
  forall groups bounds s,
    Forall2
      (fun alts b =>
         forall a, In a alts -> (fst b <= length a <= snd b)%nat)
      groups bounds ->
    match_groups groups s = true ->
    (list_sum (map fst bounds) <= length s <= list_sum (map snd bounds))%nat.
Proof.
  induction groups as [|alts groups IH]; intros bounds s HF H.
  - inversion HF; subst. simpl in *.
    destruct s; [simpl; lia | discriminate H].
  - inversion HF as [|? b ? bounds' Hb HF']; subst. simpl in H.
    apply existsb_exists in H as (alt & Hin & H).
    destruct (Meter.strip_prefix alt s) as [rest|] eqn:E; [|discriminate H].
    apply strip_prefix_app in E. subst s.
    specialize (IH _ _ HF' H). specialize (Hb alt Hin).
    rewrite length_app. simpl. lia.
Qed.

(** The grammar as written: 4 to 6 symbols for a final metron, 4 to 7 for
    a non-final one. *)
Lemma is_iambic_metron_length (s : meter) (final : bool) :
  is_iambic_metron s final = true ->
  (4 <= length s <= if final then 6 else 7)%nat.
Proof.
  unfold is_iambic_metron. destruct final; intros H; cbv iota.
  - apply (match_groups_bounds _ [(1, 2); (1, 2); (1, 1); (1, 1)]%nat) in H;
      [simpl in H; lia | unfold IAMBIC_FINAL; alternatives].
  - apply (match_groups_bounds _ [(1, 2); (1, 2); (1, 1); (1, 2)]%nat) in H;
      [simpl in H; lia | unfold IAMBIC_NONFINAL; alternatives].
Qed.

Lemma all_meters_complete (s : meter) : In s (all_meters (length s)).
Proof.
  induction s as [|a s IH]; simpl.
  - left. reflexivity.
  - apply in_flat_map. exists s. split; [exact IH|].
    destruct a; simpl; auto.
Qed.

(** A non-final metron of 7 symbols is still one without its first symbol,
    and without its last. *)
Lemma nonfinal_seven (s : meter) :
  length s = 7%nat ->
  is_iambic_metron s false = true ->
  is_iambic_metron (tl s) false = true /\
  is_iambic_metron (removelast s) false = true.
Proof.
  intros Hlen H.
  assert (forallb
            (fun s => implb (is_iambic_metron s false)
                        (is_iambic_metron (tl s) false &&
                         is_iambic_metron (removelast s) false))
            (all_meters 7) = true) as Hall by (vm_compute; reflexivity).
  rewrite forallb_forall in Hall.
  pose proof (all_meters_complete s) as Hin. rewrite Hlen in Hin.
  specialize (Hall s Hin). rewrite H in Hall. simpl in Hall.
  now apply andb_true_iff in Hall.
Qed.

Lemma first_In {A} (l : list A) (x : A) : first l = Ok x -> In x l.
Proof.
  destruct l as [|y l]; simpl; intros H; [discriminate H|].
  injection H as ->. left. reflexivity.
Qed.

(** [fill_metron] keeps the number of symbols of a metron of 4 to 6. *)
Lemma fill_metron_length (metron filled : meter) (final : bool) :
  fill_metron metron final = Ok filled ->
  (4 <= length metron <= 6)%nat ->
  length filled = length metron.
Proof.
  intros H Hb. unfold fill_metron in H.
  assert (length metron = 4 \/ length metron = 5 \/ length metron = 6)%nat
    as [E|[E|E]] by lia; rewrite E in *; cbn [Nat.eqb] in H.
  - apply bind_ok in H as (m0 & _ & H). injection H as <-. reflexivity.
  - apply bind_ok in H as (cand & Hcand & H).
    apply first_In, filter_In in Hcand as [Hcand _].
    assert (length cand = 5%nat) as Hc.
    { simpl in Hcand.
      repeat (destruct Hcand as [<-|Hcand]; [reflexivity|]).
      contradiction. }
    destruct final.
    + apply bind_ok in H as (m_last & _ & H).
      destruct (Symbol_eqb m_last UNKNOWN && _); [discriminate H|].
      injection H as <-. exact Hc.
    + injection H as <-. exact Hc.
  - apply bind_ok in H as (m0 & _ & H). injection H as <-. reflexivity.
Qed.

(** When the guard accepts the buffer extended by one symbol, and had
    refused the buffer, the new metron has 4 to 6 symbols. *)
Lemma accepted_back (st : state) (m : Symbol) :
  pending_rejected st ->
  accepts (m :: current st) (is_last st) (countdown st) = true ->
  (4 <= length (m :: current st) <= 6)%nat.
Proof.
  unfold pending_rejected, accepts. intros Hp H.
  apply andb_true_iff in H as [Hm Hg].
  pose proof (is_iambic_metron_length _ _ Hm) as Hb.
  destruct (is_last st); [lia|].
  destruct (Nat.eq_dec (length (m :: current st)) 7) as [E7|]; [|lia].
  exfalso.
  destruct (nonfinal_seven _ E7 Hm) as [Htl _]. simpl in Htl, E7.
  rewrite Htl, Hg in Hp. simpl in Hp.
  assert (4 <= length (current st))%nat as H4 by lia.
  specialize (Hp H4). discriminate Hp.
Qed.

Lemma accepted_front (st : state) (m : Symbol) :
  pending_rejected st ->
  accepts (current st ++ [m])
    (if (countdown st =? 1)%Z then true else is_last st)
    (countdown st) = true ->
  (4 <= length (current st ++ [m]) <= 6)%nat.
Proof.
  unfold pending_rejected, accepts. intros Hp H.
  apply andb_true_iff in H as [Hm Hg].
  pose proof (is_iambic_metron_length _ _ Hm) as Hb.
  destruct (countdown st =? 1)%Z; [lia|].
  destruct (is_last st); [lia|].
  destruct (Nat.eq_dec (length (current st ++ [m])) 7) as [E7|]; [|lia].
  exfalso.
  destruct (nonfinal_seven _ E7 Hm) as [_ Hrl].
  rewrite removelast_last in Hrl.
  rewrite length_app in E7. simpl in E7.
  rewrite Hrl, Hg in Hp. simpl in Hp.
  assert (4 <= length (current st))%nat as H4 by lia.
  specialize (Hp H4). discriminate Hp.
Qed.

Lemma pass_inv_initial (is_last : bool) (raw_meter : meter) :
  pass_inv (initial is_last raw_meter).
Proof.
  split; [|constructor].
  unfold pending_rejected. simpl. lia.
Qed.

Lemma back_step_pass_inv (st : state) (m : Symbol) (st' : state) :
  pass_inv st -> back_step st m = Ok st' -> pass_inv st'.
Proof.
  intros [Hp Hall] H. unfold back_step in H.
  destruct (Nat.ltb_spec (length (m :: current st)) 4) as [Hlt|Hge].
  - injection H as <-. split; [|exact Hall].
    unfold pending_rejected. simpl in *. lia.
  - destruct (accepts (m :: current st) (is_last st) (countdown st)) eqn:Hacc.
    + apply bind_ok in H as (metron & Hfill & H). injection H as <-.
      pose proof (accepted_back st m Hp Hacc) as Hb.
      split; [unfold pending_rejected; simpl; lia|]. simpl.
      constructor; [|exact Hall].
      exists (m :: current st), (is_last st).
      apply andb_true_iff in Hacc as [Hm _].
      repeat split; try assumption; try lia.
      apply (fill_metron_length _ _ _ Hfill). lia.
    + injection H as <-. split; [|exact Hall].
      unfold pending_rejected. simpl. intros _. exact Hacc.
Qed.

Lemma front_step_pass_inv (st : state) (m : Symbol) (st' : state) :
  pass_inv st -> front_step st m = Ok st' -> pass_inv st'.
Proof.
  intros [Hp Hall] H. unfold front_step in H.
  destruct (Nat.ltb_spec (length (current st ++ [m])) 4) as [Hlt|Hge].
  - injection H as <-. split; [|exact Hall].
    unfold pending_rejected. simpl in *. lia.
  - destruct (accepts (current st ++ [m]) _ (countdown st)) eqn:Hacc.
    + apply bind_ok in H as (metron & Hfill & H). injection H as <-.
      pose proof (accepted_front st m Hp Hacc) as Hb.
      split; [unfold pending_rejected; simpl; lia|]. simpl.
      apply Forall_app. split; [exact Hall|].
      constructor; [|constructor].
      eexists (current st ++ [m]), _.
      apply andb_true_iff in Hacc as [Hm _].
      split; [exact Hm|]. split; [exact Hfill|]. split; [lia|].
      apply (fill_metron_length _ _ _ Hfill). lia.
    + injection H as <-. split; [|exact Hall].
      unfold pending_rejected. simpl. intros _. exact Hacc.
Qed.

Lemma handed_to_fill_length (raw_meter metron : meter) (final : bool) :
  handed_to_fill raw_meter metron final ->
  (4 <= length metron <= 6)%nat.
Proof.
  intros [(st & m & (done & rest & _ & Hrun) & -> & -> & _ & Hacc)
         |(st & m & (done & rest & _ & Hrun) & -> & -> & _ & Hacc)].
  - apply accepted_back; [|exact Hacc].
    apply (for_each_invariant pass_inv back_step back_step_pass_inv done
             _ _ (pass_inv_initial true raw_meter) Hrun).
  - apply accepted_front; [|exact Hacc].
    apply (for_each_invariant pass_inv front_step front_step_pass_inv done
             _ _ (pass_inv_initial false raw_meter) Hrun).
Qed.

(** C8 (as amended): a string accepted by the metron matcher has at least 4
    symbols and at most 6 under the final grammar, at most 7 under the
    non-final one; and every metron that one of the two passes hands to
    [fill_metron] has 4, 5 or 6 symbols, because a 7-symbol candidate
    without its first or its last symbol is accepted too, and the loop
    takes that one first. *)
Theorem metron_lengths (s : meter) (final : bool) :
  is_iambic_metron s final = true ->
  (4 <= length s <= if final then 6 else 7)%nat /\
  forall raw_meter,
    handed_to_fill raw_meter s final -> (4 <= length s <= 6)%nat.
Proof.
  intros H. split.
  - apply is_iambic_metron_length. exact H.
  - intros raw_meter Hh. exact (handed_to_fill_length _ _ _ Hh).
Qed.

(** Seven shorts under the non-final grammar; and "SLSL", the final metron
    that the back-to-front pass hands over on the raw meter "LSLSL". *)
Lemma metron_lengths_witness :
  (is_iambic_metron m:"SSSSSSS" false = true /\
   (4 <= length m:"SSSSSSS" <= 7)%nat) /\
  (is_iambic_metron m:"SLSL" true = true /\
   handed_to_fill m:"LSLSL" m:"SLSL" true /\
   (4 <= length m:"SLSL" <= 6)%nat).
Proof.
  split.
  - split; [reflexivity|].
    exact (proj1 (metron_lengths m:"SSSSSSS" false eq_refl)).
  - split; [reflexivity|].
    assert (handed_to_fill m:"LSLSL" m:"SLSL" true) as Hh.
    { left.
      exists {| trimeter := []; current := m:"LSL"; is_last := true;
                countdown := 5 |}, SHORT.
      split.
      - exists m:"LSL", m:"L". split; reflexivity.
      - repeat split; simpl; try reflexivity; lia. }
    split; [exact Hh|].
    exact (proj2 (metron_lengths m:"SLSL" true eq_refl) _ Hh).
Defined.

(** C8 (as stated) fails: the non-final grammar accepts seven shorts, an
    anapaest with both long positions resolved. *)
Lemma metron_longer_than_six :
  ~ (forall s final,
        is_iambic_metron s final = true -> (4 <= length s <= 6)%nat).
Proof.
  intros H.
  specialize (H m:"SSSSSSS" false eq_refl). simpl in H. lia.
Qed.

(** ** The value of a successful scan *)

Lemma three_filled_metra (tri : list meter) :
  Forall filled_metron tri ->
  length tri = 3%nat ->
  exists m1 m2 m3,
    concat tri = m1 ++ m2 ++ m3 /\
    (forall filled,
        In filled [m1; m2; m3] ->
        exists metron final,
          is_iambic_metron metron final = true /\
          fill_metron metron final = Ok filled /\
          (4 <= length metron <= 6)%nat /\
          length filled = length metron) /\
    (12 <= length (concat tri) <= 18)%nat /\
    (length (concat tri) = 12%nat <->
     length m1 = 4%nat /\ length m2 = 4%nat /\ length m3 = 4%nat).
Proof.
  intros Hall Hlen.
  destruct tri as [|m1 [|m2 [|m3 [|? ?]]]]; try discriminate Hlen.
  exists m1, m2, m3.
  assert (concat [m1; m2; m3] = m1 ++ m2 ++ m3) as ->.
  { simpl. now rewrite app_nil_r. }
  inversion Hall as [|? ? (c1 & f1 & _ & _ & Hb1 & Hl1) Hall1]; subst.
  inversion Hall1 as [|? ? (c2 & f2 & _ & _ & Hb2 & Hl2) Hall2]; subst.
  inversion Hall2 as [|? ? (c3 & f3 & _ & _ & Hb3 & Hl3) _]; subst.
  split; [reflexivity|]. split.
  - intros filled Hin. rewrite Forall_forall in Hall. exact (Hall _ Hin).
  - rewrite !length_app. split; [lia|]. split; lia.
Qed.

(** C5 (as amended): when [scan_trimeter] succeeds, the returned string
    over 'L', 'S', 'X' is the concatenation of three filled metra, each with
    as many symbols as the 4-, 5- or 6-symbol metron it fills: 12 to 18
    symbols, and exactly 12 when all three metra have 4 symbols. *)
Theorem scan_trimeter_result (P : Platform) (line : str) (s : meter)
    (out : list printed) :
  scan_trimeter P line = Ok (Some s, out) ->
  exists m1 m2 m3,
    s = m1 ++ m2 ++ m3 /\
    (forall filled,
        In filled [m1; m2; m3] ->
        exists metron final,
          is_iambic_metron metron final = true /\
          fill_metron metron final = Ok filled /\
          (4 <= length metron <= 6)%nat /\
          length filled = length metron) /\
    (12 <= length s <= 18)%nat /\
    (length s = 12%nat <->
     length m1 = 4%nat /\ length m2 = 4%nat /\ length m3 = 4%nat).
Proof.
  unfold scan_trimeter, scan_trimeter_2. intros H.
  apply bind_ok in H as (raw_meter & _ & H).
  apply bind_ok in H as (st & Hback & H).
  assert (pass_inv st) as [_ Hall].
  { apply (for_each_invariant pass_inv back_step back_step_pass_inv
             (rev raw_meter) _ _ (pass_inv_initial true raw_meter) Hback). }
  destruct (Nat.eqb_spec (length (trimeter st)) 3) as [E3|_].
  - injection H as <- _. exact (three_filled_metra _ Hall E3).
  - apply bind_ok in H as (trimeter2 & H2 & H).
    apply bind_ok in H2 as (raw_meter2 & _ & H2).
    apply bind_ok in H2 as (st2 & Hfront & H2).
    injection H2 as <-.
    assert (pass_inv st2) as [_ Hall2].
    { apply (for_each_invariant pass_inv front_step front_step_pass_inv
               raw_meter2 _ _ (pass_inv_initial false raw_meter2) Hfront). }
    destruct (Nat.eqb_spec (length (trimeter st2)) 3) as [E3|_];
      [|discriminate H].
    injection H as <- _. exact (three_filled_metra _ Hall2 E3).
Qed.

(** "πεπηπεπηπηπεπεπεπηπεπηπεπη" scans to 13 symbols: the middle metron is
    the dactyl "LSSSL". *)
Lemma scan_trimeter_result_witness :
  scan_trimeter Ref.platform Lines.dactyl_line
    = Ok (Some m:"SLSLLSSSLSLSL", []) /\
  exists m1 m2 m3,
    m:"SLSLLSSSLSLSL" = m1 ++ m2 ++ m3 /\
    (12 <= length m:"SLSLLSSSLSLSL" <= 18)%nat.
Proof.
  assert (scan_trimeter Ref.platform Lines.dactyl_line
          = Ok (Some m:"SLSLLSSSLSLSL", [])) as E by (vm_compute; reflexivity).
  split; [exact E|].
  destruct (scan_trimeter_result Ref.platform Lines.dactyl_line _ _ E)
    as (m1 & m2 & m3 & Hs & _ & Hlen & _).
  exists m1, m2, m3. split; [exact Hs | exact Hlen].
Defined.

(** C5 (as stated) fails: the scan of "πεπηπεπηπηπεπεπεπηπεπηπεπη" succeeds
    and returns 13 symbols, the 5-symbol metron "LSSSL" among them. *)
Lemma scan_trimeter_not_twelve :
  scan_trimeter Ref.platform Lines.dactyl_line
    = Ok (Some m:"SLSLLSSSLSLSL", []) /\
  length m:"SLSLLSSSLSLSL" = 13%nat /\
  ~ (forall line s out,
        scan_trimeter Ref.platform line = Ok (Some s, out) ->
        length s = 12%nat).
Proof.
  assert (scan_trimeter Ref.platform Lines.dactyl_line
          = Ok (Some m:"SLSLLSSSLSLSL", [])) as E by (vm_compute; reflexivity).
  split; [exact E|]. split; [reflexivity|].
  intros H. specialize (H _ _ _ E). discriminate H.
Qed.

(** When no exception is raised and neither pass forms three metra, the
    scan returns [None] and prints the diagnostic: the heading, the line,
    the raw meter and an empty line. *)
Lemma scan_trimeter_failure_report (P : Platform) (line : str)
    (out : list printed) :
  scan_trimeter P line = Ok (None, out) ->
  exists raw_meter,
    scan_line P line = Ok raw_meter /\
    out = [ PrText "FAILED TO SCAN LINE:"%string; PrLine line;
            PrMeter raw_meter; PrBlank ].
Proof.
  unfold scan_trimeter. intros H.
  destruct (scan_line P line) as [raw_meter|e] eqn:Eraw; [|discriminate H].
  simpl in H.
  apply bind_ok in H as (st & _ & H).
  destruct (length (trimeter st) =? 3)%nat; [discriminate H|].
  apply bind_ok in H as (trimeter2 & _ & H).
  destruct (length trimeter2 =? 3)%nat; [discriminate H|].
  injection H as <-. exists raw_meter. split; reflexivity.
Qed.

(** ** Further properties of the syllable scan *)

Section ScanProperties.

Variable P : Platform.

Lemma first_raise {A} (l : list A) (e : exn) :
  first l = Raise e -> l = [] /\ e = IndexError.
Proof.
  destruct l; simpl; intros H; [|discriminate H].
  injection H as <-. split; reflexivity.
Qed.

Lemma last_raise {A} (l : list A) (e : exn) :
  last l = Raise e -> l = [] /\ e = IndexError.
Proof.
  unfold last. intros H. apply first_raise in H as [H ->].
  split; [|reflexivity].
  rewrite <- (rev_involutive l), H. reflexivity.
Qed.

Lemma strip_chars_returns (s : str) :
  (exists bare, strip_chars P s = Ok bare) <->
  (forall c, In c s -> nfd P [c] <> []).
Proof.
  induction s as [|a s IH]; simpl.
  - split; [intros _ c [] | intros _; now exists []].
  - split.
    + intros [bare H].
      apply bind_ok in H as (b0 & Hb0 & H).
      apply bind_ok in H as (brest & Hrest & _).
      intros c [<-|Hc].
      * intros E. rewrite E in Hb0. discriminate Hb0.
      * apply (proj1 IH); [now exists brest | exact Hc].
    + intros Hall.
      destruct (nfd P [a]) as [|b0 ?] eqn:E; [now elim (Hall a (or_introl eq_refl))|].
      destruct (proj2 IH) as [brest Hrest]; [intros c Hc; apply Hall; now right|].
      simpl. rewrite Hrest. simpl. now exists (b0 :: brest).
Qed.

Lemma natural_length_strip (syl : str) :
  (exists sym, natural_length P syl = Ok sym) <->
  (exists bare, strip_chars P syl = Ok bare).
Proof.
  unfold natural_length, strip_str. split.
  - intros [sym H].
    destruct (strip_chars P syl) as [bare|e]; [now exists bare|discriminate H].
  - intros [bare ->]. simpl.
    repeat match goal with
           | |- context [if ?b then _ else _] => destruct b
           end; eexists; reflexivity.
Qed.

(** [natural_length] returns a symbol exactly when every character of the
    syllable has a non-empty decomposition; the only exception it can raise
    is the [IndexError] of [normalize('NFD', ch)[0]]. *)
Theorem natural_length_returns (syl : str) :
  ((exists sym, natural_length P syl = Ok sym) <->
   (forall c, In c syl -> nfd P [c] <> [])) /\
  (forall e, natural_length P syl = Raise e ->
             e = IndexError /\ exists c, In c syl /\ nfd P [c] = []).
Proof.
  split.
  - rewrite natural_length_strip. apply strip_chars_returns.
  - intros e H.
    assert (forall s e, strip_chars P s = Raise e ->
                        e = IndexError /\ exists c, In c s /\ nfd P [c] = [])
      as Hraise.
    { clear. induction s as [|a s IH]; simpl; intros e H; [discriminate H|].
      destruct (first (nfd P [a])) as [b0|e0] eqn:E0; simpl in H.
      - destruct (strip_chars P s) as [brest|e1]; simpl in H; [discriminate H|].
        injection H as <-.
        destruct (IH _ eq_refl) as (-> & c & Hc & Hn).
        split; [reflexivity|]. exists c. split; [now right | exact Hn].
      - injection H as <-. apply first_raise in E0 as [E0 ->].
        split; [reflexivity|]. exists a. split; [now left | exact E0]. }
    unfold natural_length, strip_str in H.
    destruct (strip_chars P syl) as [bare|e0] eqn:E; simpl in H.
    + repeat match type of H with
             | context [if ?b then _ else _] => destruct b
             end; discriminate H.
    + injection H as <-. exact (Hraise _ _ E).
Qed.

(** A diphthong in the stripped syllable, or a long mark in the decomposed
    one, makes the syllable LONG by nature, whatever short vowel or breve it
    also carries: the two rules come before the short ones. *)
Theorem natural_length_long_marks (syl bare_syl : str) :
  strip_str P syl = Ok bare_syl ->
  (exists d, In d DIPHTHONGS /\ substring_in d bare_syl = true) \/
  (exists c, In c LONG_MARKS /\ In c (nfd P syl)) ->
  natural_length P syl = Ok LONG.
Proof.
  intros Hstrip H. unfold natural_length. rewrite Hstrip. cbn [bind].
  destruct (search_class LONG_VOWELS bare_syl); [reflexivity|].
  destruct H as [(d & Hd & Hsub)|(c & Hc & Hin)].
  - assert (search_any DIPHTHONGS bare_syl = true) as ->; [|reflexivity].
    unfold search_any. apply existsb_exists. now exists d.
  - destruct (search_any DIPHTHONGS bare_syl); [reflexivity|].
    now rewrite (search_class_In _ _ c Hin Hc).
Qed.

Lemma positional_length_raise (syl next_syl : str) (e : exn) :
  positional_length P syl next_syl = Raise e ->
  e = IndexError /\
  (syl = [] \/ next_syl = [] \/ alnum_syl P syl = []).
Proof.
  unfold positional_length. intros H.
  destruct (last syl) as [c1|e1] eqn:E1; cbn [bind] in H.
  2:{ injection H as <-. apply last_raise in E1 as [-> ->]. auto. }
  destruct (first next_syl) as [c2|e2] eqn:E2; cbn [bind] in H.
  2:{ injection H as <-. apply first_raise in E2 as [-> ->]. auto. }
  cbv zeta in H.
  match type of H with
  | bind ?status _ = _ => destruct status as [st|e0] eqn:Est
  end; cbn [bind] in H.
  - match type of H with
    | (if ?b then _ else _) = _ => destruct b; discriminate H
    end.
  - injection H as <-.
    repeat match type of Est with
           | (if ?b then _ else _) = _ => destruct b; try discriminate Est
           end.
    destruct (last (alnum_syl P syl)) as [c|e3] eqn:E3; cbn [bind] in Est.
    + destruct (char_in c VOWELS); discriminate Est.
    + injection Est as <-. apply last_raise in E3 as [-> ->]. auto.
Qed.

Lemma positional_length_ok (syl next_syl : str) :
  syl <> [] -> next_syl <> [] -> alnum_syl P syl <> [] ->
  exists sym, positional_length P syl next_syl = Ok sym.
Proof.
  intros H1 H2 H3.
  destruct (positional_length P syl next_syl) as [sym|e] eqn:E;
    [now exists sym|].
  apply positional_length_raise in E as (_ & [E|[E|E]]); contradiction.
Qed.

(** The only exception of [positional_length] is [IndexError], and it needs
    an empty syllable, an empty next syllable, or a syllable that is empty
    once cleaned. *)
Theorem positional_length_error (syl next_syl : str) (e : exn) :
  positional_length P syl next_syl = Raise e ->
  e = IndexError /\
  (syl = [] \/ next_syl = [] \/ alnum_syl P syl = []).
Proof.
  apply positional_length_raise.
Qed.

Lemma next_of_cases (rest : list str) :
  next_of rest = END \/ In (next_of rest) rest.
Proof.
  destruct rest; simpl; auto.
Qed.

Lemma In_skipn {A} (n : nat) :
  forall (l : list A) (x : A), In x (skipn n l) -> In x l.
Proof.
  induction n as [|n IH]; intros [|a l] x H; simpl in *; auto.
Qed.

End ScanProperties.

(** ε under a combining circumflex: the long mark wins over the short
    vowel. *)
Lemma natural_length_long_marks_witness :
  strip_str Ref.platform [epsilon; 0x302%N] = Ok [epsilon; 0x302%N] /\
  In 0x302%N LONG_MARKS /\
  natural_length Ref.platform [epsilon; 0x302%N] = Ok LONG.
Proof.
  split; [reflexivity|].
  split; [left; reflexivity|].
  apply (natural_length_long_marks Ref.platform [epsilon; 0x302%N]
           [epsilon; 0x302%N] eq_refl).
  right. exists 0x302%N. split; [left | right; left]; reflexivity.
Defined.

(** An empty syllable, and a syllable made of one space before "τρα". *)
Lemma positional_length_error_witness :
  positional_length Ref.platform [] [alpha] = Raise IndexError /\
  positional_length Ref.platform [0x20%N] [tau; rho; alpha]
    = Raise IndexError /\
  alnum_syl Ref.platform [0x20%N] = [].
Proof.
  split; [reflexivity|].
  assert (positional_length Ref.platform [0x20%N] [tau; rho; alpha]
          = Raise IndexError) as E by reflexivity.
  split; [exact E|].
  destruct (positional_length_error Ref.platform _ _ _ E)
    as (_ & [H|[H|H]]); [discriminate H | discriminate H | exact H].
Defined.

Section ScanComposition.

Variable P : Platform.

Lemma trailing_consonants_snoc (s : str) (c : char) :
  char_in c CONSONANTS = true ->
  trailing_consonants (s ++ [c]) = trailing_consonants s ++ [c].
Proof.
  intros Hc. unfold trailing_consonants.
  rewrite rev_app_distr. change (rev [c]) with [c].
  cbn [app leading_consonants]. rewrite Hc. reflexivity.
Qed.

(** The cluster between two vowels does not depend on where the syllable
    boundary falls inside it: a consonant counted at the end of the first
    syllable or at the start of the next gives the same cluster. *)
Theorem consonant_cluster_boundary (s n : str) (c : char) :
  char_in c CONSONANTS = true ->
  consonant_cluster (s ++ [c]) n = consonant_cluster s (c :: n).
Proof.
  intros Hc. unfold consonant_cluster.
  rewrite (trailing_consonants_snoc _ _ Hc).
  cbn [leading_consonants]. rewrite Hc.
  rewrite <- app_assoc. reflexivity.
Qed.

Lemma syllable_length_ok (syl next_syl : str) :
  (forall c, In c syl -> nfd P [c] <> []) ->
  syl <> [] -> next_syl <> [] -> alnum_syl P syl <> [] ->
  is_ok (syllable_length P syl next_syl) = true.
Proof.
  intros Hn H1 H2 H3. unfold syllable_length.
  destruct (proj2 (natural_length_strip P syl)
              (proj2 (strip_chars_returns P syl) Hn)) as [natural ->].
  cbn [bind].
  destruct (positional_length_ok P _ _ H1 H2 H3) as [positional ->].
  destruct natural, positional; reflexivity.
Qed.

(** [scan_line] returns a meter, one symbol per syllable, whenever every
    syllable of the line is non-empty, keeps a character when cleaned, and
    has characters with non-empty decompositions. *)
Theorem scan_line_returns (line : str) :
  (forall syl,
      In syl (syllabify P (strip P line)) ->
      syl <> [] /\ alnum_syl P syl <> [] /\
      forall c, In c syl -> nfd P [c] <> []) ->
  exists scanned,
    scan_line P line = Ok scanned /\
    length scanned = length (syllabify P (strip P line)).
Proof.
  unfold scan_line. cbv zeta. intros Hall.
  destruct (scan_syllables_returns P (syllabify P (strip P line)))
    as [scanned Hs].
  - intros i syl Hi.
    destruct (Hall syl (nth_error_In _ _ Hi)) as (H1 & H3 & Hn).
    apply syllable_length_ok; try assumption.
    destruct (next_of_cases (skipn (S i) (syllabify P (strip P line))))
      as [->|Hin]; [discriminate|].
    apply In_skipn in Hin. apply (Hall _ Hin).
  - exists scanned. split; [exact Hs|].
    apply (scan_syllables_nth P _ _ Hs).
Qed.

(** A syllable scans LONG exactly when it is LONG by nature or by
    position, and SHORT exactly when it is SHORT both by nature and by
    position. *)
Theorem scan_line_long_short (line : str) (scanned : meter) :
  scan_line P line = Ok scanned ->
  forall i syl,
    nth_error (syllabify P (strip P line)) i = Some syl ->
    let next_syl := next_of (skipn (S i) (syllabify P (strip P line))) in
    (nth_error scanned i = Some LONG <->
     natural_length P syl = Ok LONG \/
     positional_length P syl next_syl = Ok LONG) /\
    (nth_error scanned i = Some SHORT <->
     natural_length P syl = Ok SHORT /\
     positional_length P syl next_syl = Ok SHORT).
Proof.
  unfold scan_line. cbv zeta. intros H i syl Hi.
  destruct (scan_syllables_nth P _ _ H) as [_ Hnth].
  destruct (Hnth i syl Hi) as (sym & Hsym & Hbody). rewrite Hsym.
  destruct (syllable_length_cases P _ _ _ Hbody)
    as (natural & Hnat & HL & Hrest).
  rewrite Hnat.
  destruct natural.
  - rewrite (HL eq_refl). split; split; intros H0.
    + left. reflexivity.
    + reflexivity.
    + discriminate H0.
    + destruct H0 as [H0 _]. discriminate H0.
  - destruct Hrest as (positional & Hpos & H1 & H2 & _); [discriminate|].
    rewrite Hpos.
    destruct positional.
    + rewrite (H1 eq_refl). split; split; intros H0.
      * right. reflexivity.
      * reflexivity.
      * discriminate H0.
      * destruct H0 as [_ H0]. discriminate H0.
    + rewrite (H2 ltac:(discriminate) eq_refl). split; split; intros H0.
      * discriminate H0.
      * destruct H0 as [H0|H0]; discriminate H0.
      * split; reflexivity.
      * reflexivity.
    + rewrite (H2 ltac:(discriminate) eq_refl). split; split; intros H0.
      * discriminate H0.
      * destruct H0 as [H0|H0]; discriminate H0.
      * discriminate H0.
      * destruct H0 as [_ H0]. discriminate H0.
  - destruct Hrest as (positional & Hpos & H1 & _ & H3); [discriminate|].
    rewrite Hpos.
    destruct positional.
    + rewrite (H1 eq_refl). split; split; intros H0.
      * right. reflexivity.
      * reflexivity.
      * discriminate H0.
      * destruct H0 as [H0 _]. discriminate H0.
    + rewrite (H3 ltac:(discriminate) eq_refl). split; split; intros H0.
      * discriminate H0.
      * destruct H0 as [H0|H0]; discriminate H0.
      * discriminate H0.
      * destruct H0 as [H0 _]. discriminate H0.
    + rewrite (H3 ltac:(discriminate) eq_refl). split; split; intros H0.
      * discriminate H0.
      * destruct H0 as [H0|H0]; discriminate H0.
      * discriminate H0.
      * destruct H0 as [H0 _]. discriminate H0.
Qed.

(** The scan of the end of a syllable list is the end of the scan: what
    comes before a syllable has no influence on its symbol. *)
Theorem scan_syllables_suffix (xs ys : list str) (scanned : meter) :
  scan_syllables P (xs ++ ys) = Ok scanned ->
  scan_syllables P ys = Ok (skipn (length xs) scanned).
Proof.
  revert scanned.
  induction xs as [|x xs IH]; intros scanned H; simpl in *.
  - exact H.
  - apply bind_ok in H as (sym & _ & H).
    apply bind_ok in H as (tail & Htail & H).
    injection H as <-. simpl. apply IH. exact Htail.
Qed.

End ScanComposition.

(** "αρ" + "τα" and "α" + "ρτα" have the cluster "ρτ". *)
Lemma consonant_cluster_boundary_witness :
  char_in rho CONSONANTS = true /\
  consonant_cluster ([alpha] ++ [rho]) [tau; alpha]
  = consonant_cluster [alpha] [rho; tau; alpha].
Proof.
  split; [reflexivity|].
  apply (consonant_cluster_boundary [alpha] [tau; alpha] rho). reflexivity.
Defined.

Lemma decompose_nonempty (c : char) : Ref.decompose c <> [].
Proof.
  unfold Ref.decompose.
  repeat match goal with
         | |- context [if ?b then _ else _] => destruct b
         end; discriminate.
Qed.

(** "πετρα" meets the conditions and scans to two symbols. *)
Lemma scan_line_returns_witness :
  exists scanned,
    scan_line Ref.platform Lines.petra = Ok scanned /\
    length scanned = 2%nat.
Proof.
  apply (scan_line_returns Ref.platform Lines.petra).
  intros syl Hin.
  assert (forall c, In c syl -> nfd Ref.platform [c] <> []) as Hn.
  { intros c _. simpl. rewrite app_nil_r. apply decompose_nonempty. }
  simpl in Hin. destruct Hin as [<-|[<-|[]]];
    (split; [discriminate|]; split; [vm_compute; discriminate | exact Hn]).
Defined.

(** In "πετρα" neither syllable is LONG or SHORT. *)
Lemma scan_line_long_short_witness :
  scan_line Ref.platform Lines.petra = Ok m:"XX" /\
  (nth_error m:"XX" 0 = Some SHORT <->
   natural_length Ref.platform [pi; epsilon] = Ok SHORT /\
   positional_length Ref.platform [pi; epsilon] [tau; rho; alpha]
     = Ok SHORT).
Proof.
  split; [reflexivity|].
  exact (proj2 (scan_line_long_short Ref.platform Lines.petra m:"XX" eq_refl
                  0%nat [pi; epsilon] eq_refl)).
Defined.

(** The scan of "τρα" alone is the end of the scan of "πε", "τρα". *)
Lemma scan_syllables_suffix_witness :
  scan_syllables Ref.platform ([[pi; epsilon]] ++ [[tau; rho; alpha]])
    = Ok m:"XX" /\
  scan_syllables Ref.platform [[tau; rho; alpha]] = Ok m:"X".
Proof.
  split; [reflexivity|].
  exact (scan_syllables_suffix Ref.platform [[pi; epsilon]]
           [[tau; rho; alpha]] m:"XX" eq_refl).
Defined.

(** ** Further properties of [fill_metron] and of the grammar *)

(** The first element of a filtered list is the first element of the list
    that passes the test. *)
Lemma first_filter {A} (f : A -> bool) (l : list A) :
  (forall x, first (filter f l) = Ok x ->
             exists before after,
               l = before ++ x :: after /\ f x = true /\
               Forall (fun y => f y = false) before) /\
  (forall e, first (filter f l) = Raise e ->
             e = IndexError /\ forall y, In y l -> f y = false).
Proof.
  induction l as [|a l [IHok IHraise]]; simpl.
  - split; [intros x H; discriminate H|].
    intros e H. injection H as <-. split; [reflexivity | intros y []].
  - destruct (f a) eqn:Ea; simpl.
    + split; [|intros e H; discriminate H].
      intros x H. injection H as <-.
      exists [], l. repeat split; [exact Ea | constructor].
    + split.
      * intros x H. destruct (IHok x H) as (before & after & -> & Hx & Hb).
        exists (a :: before), after.
        repeat split; [exact Hx | constructor; assumption].
      * intros e H. destruct (IHraise e H) as [-> Hall].
        split; [reflexivity|]. intros y [<-|Hy]; auto.
Qed.

Lemma forall_meters (n : nat) (f : meter -> bool) :
  forallb f (all_meters n) = true ->
  forall s, length s = n -> f s = true.
Proof.
  intros Hall s <-. rewrite forallb_forall in Hall.
  apply Hall, all_meters_complete.
Qed.

(** On a metron that has not 5 symbols [fill_metron] never raises: with 4
    or 6 symbols it keeps the first symbol and the length and leaves no X
    after the first symbol; with any other number of symbols, none
    included, it returns the empty string. *)
Theorem fill_metron_other_lengths (metron : meter) (final : bool) :
  length metron <> 5%nat ->
  exists filled,
    fill_metron metron final = Ok filled /\
    (length metron = 4%nat \/ length metron = 6%nat ->
     length filled = length metron /\
     first filled = first metron /\
     ~ In UNKNOWN (tl filled)) /\
    (length metron <> 4%nat -> length metron <> 6%nat -> filled = []).
Proof.
  intros H5.
  destruct metron as [|a [|b [|c [|d [|e [|f [|g rest]]]]]]];
    simpl in H5; try (now elim H5);
    eexists; (split; [reflexivity|]); simpl;
    (split; [intros [H|H]; try discriminate H
            | intros H4 H6; try reflexivity; try (now elim H4);
              try (now elim H6)]).
  - repeat split. intros [X|[X|[X|[]]]]; discriminate X.
  - repeat split. intros [X|[X|[X|[X|[X|[]]]]]]; discriminate X.
Qed.

(** Metra of 3 and of 7 symbols come back empty. *)
Lemma fill_metron_other_lengths_witness :
  fill_metron m:"SLS" false = Ok [] /\
  exists filled,
    fill_metron m:"SSSSSSS" false = Ok filled /\ filled = [].
Proof.
  split; [reflexivity|].
  destruct (fill_metron_other_lengths m:"SSSSSSS" false)
    as (filled & Hf & _ & Hempty); [discriminate|].
  exists filled. split; [exact Hf|].
  apply Hempty; discriminate.
Defined.

(** Filling is idempotent: what [fill_metron] returns, it returns
    unchanged when given it again with the same flag. *)
Theorem fill_metron_idempotent (metron filled : meter) (final : bool) :
  fill_metron metron final = Ok filled ->
  fill_metron filled final = Ok filled.
Proof.
  intros H.
  destruct (Nat.eq_dec (length metron) 5) as [E5|N5].
  - unfold fill_metron in H. rewrite E5 in H. cbn [Nat.eqb] in H.
    apply bind_ok in H as (cand & Hcand & H).
    apply first_In, filter_In in Hcand as [Hcand _].
    assert (filled = cand) as ->.
    { destruct final; [|now injection H].
      apply bind_ok in H as (m_last & _ & H).
      destruct (Symbol_eqb m_last UNKNOWN && _); [discriminate H|].
      now injection H. }
    simpl in Hcand.
    destruct Hcand as [<-|[<-|[<-|[<-|[]]]]]; destruct final; reflexivity.
  - destruct metron as [|a [|b [|c [|d [|e [|f [|g rest]]]]]]];
      simpl in N5; try (now elim N5);
      simpl in H; injection H as <-; reflexivity.
Qed.

(** "XXSX" fills to "XLSL", which fills to itself. *)
Lemma fill_metron_idempotent_witness :
  fill_metron m:"XXSX" false = Ok m:"XLSL" /\
  fill_metron m:"XLSL" false = Ok m:"XLSL".
Proof.
  split; [reflexivity|].
  exact (fill_metron_idempotent m:"XXSX" m:"XLSL" false eq_refl).
Defined.

(** On a 5-symbol metron, what [fill_metron] returns is the first
    candidate of the ranked list that agrees with the metron on every
    symbol that is not X; and [IndexError] is raised exactly when no
    candidate agrees. *)
Theorem fill_metron_first_candidate (metron : meter) (final : bool) :
  length metron = 5%nat ->
  (forall filled,
      fill_metron metron final = Ok filled ->
      exists before after,
        possible_metra = before ++ filled :: after /\
        wildcard_match metron filled = true /\
        Forall (fun c => wildcard_match metron c = false) before) /\
  (fill_metron metron final = Raise IndexError <->
   forall c, In c possible_metra -> wildcard_match metron c = false).
Proof.
  intros E5. unfold fill_metron. rewrite E5. cbn [Nat.eqb].
  destruct (first_filter (wildcard_match metron) possible_metra)
    as [Hok Hraise].
  destruct (first (filter (wildcard_match metron) possible_metra))
    as [cand|e] eqn:Ecand; cbn [bind].
  - split.
    + intros filled H.
      assert (filled = cand) as ->; [|exact (Hok _ eq_refl)].
      destruct final; [|now injection H].
      apply bind_ok in H as (m_last & _ & H).
      destruct (Symbol_eqb m_last UNKNOWN && _); [discriminate H|].
      now injection H.
    + destruct (Hok _ eq_refl) as (before & after & Hsplit & Hmatch & _).
      split.
      * intros H. exfalso.
        destruct final; [|discriminate H].
        destruct (last metron) as [m_last|e] eqn:Elast; cbn [bind] in H.
        -- destruct (Symbol_eqb m_last UNKNOWN && _); discriminate H.
        -- apply last_raise in Elast as [-> _]. discriminate E5.
      * intros Hnone. rewrite Hnone in Hmatch; [discriminate Hmatch|].
        rewrite Hsplit. apply in_or_app. right. left. reflexivity.
  - destruct (Hraise _ eq_refl) as [-> Hnone].
    split; [intros filled H; discriminate H|].
    split; [intros _; exact Hnone | reflexivity].
Qed.

(** "XSXSL" agrees with "SSSSL", "LSSSL" and "SSLSL"; the first is taken. *)
Lemma fill_metron_first_candidate_witness :
  length m:"XSXSL" = 5%nat /\
  fill_metron m:"XSXSL" false = Ok m:"SSSSL" /\
  exists before after,
    possible_metra = before ++ m:"SSSSL" :: after /\
    wildcard_match m:"XSXSL" m:"SSSSL" = true.
Proof.
  split; [reflexivity|]. split; [reflexivity|].
  destruct (proj1 (fill_metron_first_candidate m:"XSXSL" false eq_refl)
              m:"SSSSL" eq_refl) as (before & after & Hs & Hm & _).
  exists before, after. split; assumption.
Defined.

(** A 4-symbol metron that the non-final grammar accepts is filled to a
    string that agrees with it on every symbol that is not X. *)
Theorem fill_metron_four_consistent (metron : meter) (final : bool) :
  is_iambic_metron metron false = true ->
  length metron = 4%nat ->
  exists filled,
    fill_metron metron final = Ok filled /\
    wildcard_match metron filled = true.
Proof.
  intros H E4.
  destruct metron as [|a [|b [|c [|d [|? ?]]]]]; try discriminate E4.
  eexists. split; [reflexivity|].
  destruct a, b, c, d; try discriminate H; reflexivity.
Qed.

Lemma fill_metron_four_consistent_witness :
  exists filled,
    fill_metron m:"LXSX" false = Ok filled /\
    wildcard_match m:"LXSX" filled = true.
Proof.
  apply (fill_metron_four_consistent m:"LXSX" false); reflexivity.
Defined.

(** On a 5-symbol metron that the final grammar accepts, the last symbol
    decides the outcome of the final fill.  L: a candidate is returned.
    X: the restoration step raises [TypeError], always.  S: "SLSSS" is
    returned when it agrees with the metron, and [IndexError] is raised
    otherwise. *)
Theorem fill_metron_final_five (m0 m1 m2 m3 m4 : Symbol) :
  is_iambic_metron [m0; m1; m2; m3; m4] true = true ->
  match m4 with
  | LONG => exists filled,
      fill_metron [m0; m1; m2; m3; m4] true = Ok filled /\
      wildcard_match [m0; m1; m2; m3; m4] filled = true
  | UNKNOWN => fill_metron [m0; m1; m2; m3; m4] true = Raise TypeError
  | SHORT =>
      fill_metron [m0; m1; m2; m3; m4] true =
      if wildcard_match [m0; m1; m2; m3; m4] m:"SLSSS" then Ok m:"SLSSS"
      else Raise IndexError
  end.
Proof.
  intros H.
  destruct m0, m1, m2, m3, m4; try discriminate H;
    try reflexivity; eexists; split; reflexivity.
Qed.

Lemma fill_metron_final_five_witness :
  is_iambic_metron m:"SXSSX" true = true /\
  fill_metron m:"SXSSX" true = Raise TypeError.
Proof.
  split; [reflexivity|].
  exact (fill_metron_final_five SHORT UNKNOWN SHORT SHORT UNKNOWN eq_refl).
Defined.

(** On a 5-symbol metron that the non-final grammar accepts, the non-final
    fill raises exactly when the metron starts with L and has L in second
    place or S in last place, and then it raises [IndexError]; otherwise it
    returns a candidate that agrees with the metron. *)
Theorem fill_metron_nonfinal_five (m0 m1 m2 m3 m4 : Symbol) :
  is_iambic_metron [m0; m1; m2; m3; m4] false = true ->
  (fill_metron [m0; m1; m2; m3; m4] false = Raise IndexError <->
   m0 = LONG /\ (m1 = LONG \/ m4 = SHORT)) /\
  (~ (m0 = LONG /\ (m1 = LONG \/ m4 = SHORT)) ->
   exists filled,
     fill_metron [m0; m1; m2; m3; m4] false = Ok filled /\
     wildcard_match [m0; m1; m2; m3; m4] filled = true).
Proof.
  intros H.
  destruct m0, m1, m2, m3, m4; try discriminate H;
    (split;
     [ split;
       [ intros E; first [discriminate E | split; [reflexivity | auto]]
       | intros [E0 [E1|E1]]; try discriminate E0; try discriminate E1;
         reflexivity ]
     | intros N;
       first [ exfalso; apply N; split; [reflexivity | auto; fail]
             | eexists; split; reflexivity ] ]).
Qed.

Lemma fill_metron_nonfinal_five_witness :
  is_iambic_metron m:"LXSXS" false = true /\
  fill_metron m:"LXSXS" false = Raise IndexError.
Proof.
  split; [reflexivity|].
  apply (proj1 (fill_metron_nonfinal_five LONG UNKNOWN SHORT UNKNOWN SHORT
                  eq_refl)).
  split; [reflexivity | right; reflexivity].
Defined.

(** A metron that the final grammar accepts and that does not end in S is
    accepted by the non-final grammar too. *)
Theorem final_metron_is_nonfinal (s : meter) :
  is_iambic_metron s true = true ->
  last s <> Ok SHORT ->
  is_iambic_metron s false = true.
Proof.
  intros H Hlast.
  pose proof (is_iambic_metron_length s true H) as Hb. cbv iota in Hb.
  set (f := fun s : meter =>
              implb (is_iambic_metron s true)
                (match last s with
                 | Ok SHORT => true
                 | _ => is_iambic_metron s false
                 end)).
  assert (f s = true) as Hf.
  { assert (length s = 4 \/ length s = 5 \/ length s = 6)%nat
      as [E|[E|E]] by lia;
      [ apply (forall_meters 4 f) | apply (forall_meters 5 f)
      | apply (forall_meters 6 f) ];
      first [exact E | vm_compute; reflexivity]. }
  unfold f in Hf. rewrite H in Hf. simpl in Hf.
  destruct (last s) as [[| |]|e]; try exact Hf.
  now elim Hlast.
Qed.

Lemma final_metron_is_nonfinal_witness :
  is_iambic_metron m:"SSLSX" true = true /\
  is_iambic_metron m:"SSLSX" false = true.
Proof.
  split; [reflexivity|].
  apply (final_metron_is_nonfinal m:"SSLSX"); [reflexivity | discriminate].
Defined.

(** Every metron of the list [POSSIBLE_METRA] is free of X, is accepted by
    the non-final grammar and is returned unchanged by [fill_metron] with
    either flag; and the candidates of [fill_metron] are among them. *)
Theorem POSSIBLE_METRA_filled :
  (forall metron,
      In metron POSSIBLE_METRA ->
      ~ In UNKNOWN metron /\
      is_iambic_metron metron false = true /\
      forall final, fill_metron metron final = Ok metron) /\
  (forall c, In c possible_metra -> In c POSSIBLE_METRA).
Proof.
  split.
  - intros metron Hin. simpl in Hin.
    repeat (destruct Hin as [<-|Hin];
            [ split; [ simpl; intuition discriminate
                     | split; [reflexivity | intros []; reflexivity] ] | ]).
    contradiction.
  - intros c Hin. simpl in Hin.
    repeat (destruct Hin as [<-|Hin]; [simpl; tauto|]).
    contradiction.
Qed.

(** ** The metra of a pass as segments of the raw meter *)

(** An invariant that may mention the items already processed. *)
Lemma for_each_trace {St A} (Inv : list A -> St -> Prop)
    (body : St -> A -> result St) (st0 : St) (items : list A) :
  Inv [] st0 ->
  (forall done x rest st st',
      items = done ++ x :: rest ->
      Inv done st -> body st x = Ok st' -> Inv (done ++ [x]) st') ->
  forall done rest st,
    items = done ++ rest -> for_each body st0 done = Ok st -> Inv done st.
Proof.
  intros H0 Hstep done.
  induction done as [|x done IH] using rev_ind; intros rest st Hsplit Hrun.
  - simpl in Hrun. injection Hrun as <-. exact H0.
  - rewrite for_each_app in Hrun.
    apply bind_ok in Hrun as (st1 & H1 & H2). simpl in H2.
    destruct (body st1 x) as [st2|e] eqn:E; simpl in H2; [|discriminate H2].
    injection H2 as <-.
    rewrite <- app_assoc in Hsplit. simpl in Hsplit.
    apply (Hstep done x rest st1 st2 Hsplit); [|exact E].
    exact (IH (x :: rest) st1 Hsplit H1).
Qed.

(** A loop that raises does so in the body, at a state it has reached. *)
Lemma for_each_raise {St A} (body : St -> A -> result St) (items : list A) :
  forall st0 e,
    for_each body st0 items = Raise e ->
    exists st x, before_iteration body st0 items st x /\ body st x = Raise e.
Proof.
  induction items as [|a items IH]; intros st0 e H; simpl in H.
  - discriminate H.
  - destruct (body st0 a) as [st1|e1] eqn:E; simpl in H.
    + destruct (IH st1 e H) as (st & x & (done & rest & -> & Hrun) & Hx).
      exists st, x. split; [|exact Hx].
      exists (a :: done), rest. split; [reflexivity|].
      simpl. rewrite E. exact Hrun.
    + injection H as <-. exists st0, a. split; [|exact E].
      exists [], items. split; reflexivity.
Qed.

Lemma parts_lengths (parts : list part) :
  Forall part_ok parts ->
  (4 * length parts <= length (concat (map matched_of parts))
   <= 6 * length parts)%nat /\
  length (concat (map filled_of parts))
  = length (concat (map matched_of parts)).
Proof.
  induction 1 as [|p parts (_ & Hfill & Hb) _ [IHb IHl]]; simpl.
  - split; [lia | reflexivity].
  - rewrite !length_app, IHl.
    rewrite (fill_metron_length _ _ _ Hfill Hb). lia.
Qed.

Lemma parts_filled (parts : list part) :
  Forall part_ok parts -> Forall filled_metron (map filled_of parts).
Proof.
  induction 1 as [|p parts (Hm & Hfill & Hb) _ IH]; simpl; constructor.
  - exists (matched_of p), (final_of p).
    repeat split; try assumption; try lia.
    exact (fill_metron_length _ _ _ Hfill Hb).
  - exact IH.
Qed.

Lemma back_trace_initial (raw_meter : meter) :
  back_trace (length raw_meter) [] (initial true raw_meter).
Proof.
  unfold back_trace, initial. simpl.
  split; [unfold pending_rejected; simpl; lia|].
  split; [lia|].
  exists []. repeat split; auto.
Qed.

Lemma back_step_trace (n : nat) (done : meter) (st : state) (m : Symbol)
    (st' : state) :
  back_trace n done st ->
  back_step st m = Ok st' ->
  back_trace n (done ++ [m]) st'.
Proof.
  intros (Hp & Hcd & parts & Htri & Hrev & Hok & Hflags) H.
  assert (pass_inv st) as Hpass.
  { split; [exact Hp|]. rewrite Htri. now apply parts_filled. }
  destruct (back_step_pass_inv _ _ _ Hpass H) as [Hp' _].
  assert (rev (done ++ [m]) = (m :: current st) ++ concat (map matched_of parts))
    as Hrev'.
  { rewrite rev_app_distr. simpl. now rewrite Hrev. }
  unfold back_step in H.
  destruct (Nat.ltb_spec (length (m :: current st)) 4) as [Hlt|Hge].
  - injection H as <-. split; [exact Hp'|]. split; [exact Hcd|].
    exists parts. repeat split; assumption.
  - destruct (accepts (m :: current st) (is_last st) (countdown st)) eqn:Hacc.
    + apply bind_ok in H as (metron & Hfill & H). injection H as <-.
      split; [exact Hp'|]. simpl.
      split; [rewrite Hcd; lia|].
      exists ((m :: current st, is_last st, metron) :: parts).
      split; [simpl; now rewrite Htri|].
      split; [exact Hrev'|].
      split.
      * constructor; [|exact Hok].
        pose proof (accepted_back st m Hp Hacc) as Hb.
        apply andb_true_iff in Hacc as [Hm _].
        unfold part_ok. cbn [matched_of final_of filled_of fst snd].
        repeat split; try assumption; lia.
      * right. split; [reflexivity|].
        destruct Hflags as [[-> Hil]|[Hil (init & c & m0 & -> & Hinit)]].
        -- exists [], (m :: current st), metron. rewrite Hil.
           split; [reflexivity | constructor].
        -- exists ((m :: current st, is_last st, metron) :: init), c, m0.
           split; [reflexivity|]. constructor; [exact Hil | exact Hinit].
    + injection H as <-. split; [exact Hp'|]. split; [exact Hcd|].
      exists parts. repeat split; assumption.
Qed.

Lemma front_trace_initial (raw_meter : meter) :
  front_trace (length raw_meter) [] (initial false raw_meter).
Proof.
  unfold front_trace, initial. simpl.
  split; [unfold pending_rejected; simpl; lia|].
  split; [reflexivity|]. split; [lia|].
  exists []. repeat split; auto.
Qed.

(** In the front-to-back loop the countdown is not 1 when the buffer
    reaches 4 symbols. *)
Lemma front_trace_countdown (n : nat) (done : meter) (st : state)
    (m : Symbol) :
  front_trace n done st ->
  (length done < n)%nat ->
  (4 <= length (current st ++ [m]))%nat ->
  (countdown st =? 1)%Z = false /\
  ((5 <= n)%nat -> (countdown st >? 4)%Z = true).
Proof.
  intros (_ & _ & Hcd & parts & Htri & Hdone & Hok & _) Hn H4.
  destruct (parts_lengths _ Hok) as [Hb _].
  assert (length (trimeter st) = length parts) as Hk.
  { rewrite Htri. apply length_map. }
  apply (f_equal (@length Symbol)) in Hdone.
  rewrite !length_app in *. simpl in H4.
  split; [apply Z.eqb_neq | intros H5; apply Z.gtb_lt]; lia.
Qed.

Lemma front_step_trace (n : nat) (done : meter) (st : state) (m : Symbol)
    (st' : state) :
  front_trace n done st ->
  (length done < n)%nat ->
  front_step st m = Ok st' ->
  front_trace n (done ++ [m]) st'.
Proof.
  intros Htrace Hn H.
  pose proof (front_trace_countdown _ _ _ m Htrace Hn) as Hcount.
  destruct Htrace as (Hp & Hil & Hcd & parts & Htri & Hdone & Hok & Hflags).
  assert (pass_inv st) as Hpass.
  { split; [exact Hp|]. rewrite Htri. now apply parts_filled. }
  destruct (front_step_pass_inv _ _ _ Hpass H) as [Hp' _].
  assert (done ++ [m] = concat (map matched_of parts) ++ current st ++ [m])
    as Hdone'.
  { rewrite Hdone. now rewrite app_assoc. }
  unfold front_step in H.
  destruct (Nat.ltb_spec (length (current st ++ [m])) 4) as [Hlt|Hge].
  - injection H as <-. split; [exact Hp'|]. split; [exact Hil|].
    split; [exact Hcd|]. exists parts. repeat split; assumption.
  - destruct (Hcount Hge) as [Hc1 _]. rewrite Hc1, Hil in H.
    destruct (accepts (current st ++ [m]) false (countdown st)) eqn:Hacc.
    + apply bind_ok in H as (metron & Hfill & H). injection H as <-.
      split; [exact Hp'|]. simpl. split; [reflexivity|].
      split; [rewrite Hcd, length_app; simpl; lia|].
      exists (parts ++ [(current st ++ [m], false, metron)]).
      split; [rewrite map_app, Htri; reflexivity|].
      split.
      { rewrite map_app, concat_app. simpl.
        rewrite !app_nil_r. exact Hdone'. }
      assert (accepts (current st ++ [m])
                (if (countdown st =? 1)%Z then true else is_last st)
                (countdown st) = true) as Hacc'.
      { now rewrite Hc1, Hil. }
      pose proof (accepted_front st m Hp Hacc') as Hb.
      apply andb_true_iff in Hacc as [Hm _].
      split.
      * apply Forall_app. split; [exact Hok|].
        constructor; [|constructor].
        unfold part_ok. cbn [matched_of final_of filled_of fst snd].
        repeat split; try assumption; lia.
      * apply Forall_app. split; [exact Hflags|].
        constructor; [reflexivity | constructor].
    + injection H as <-. split; [exact Hp'|]. split; [reflexivity|].
      split; [exact Hcd|]. exists parts. repeat split; assumption.
Qed.

(** The back-to-front loop, wherever it has got to. *)
Lemma back_loop_trace (raw_meter done rest : meter) (st : state) :
  rev raw_meter = done ++ rest ->
  for_each back_step (initial true raw_meter) done = Ok st ->
  back_trace (length raw_meter) done st.
Proof.
  apply (for_each_trace (back_trace (length raw_meter)) back_step).
  - apply back_trace_initial.
  - intros d x r s s' _ Hinv Hstep. exact (back_step_trace _ _ _ x _ Hinv Hstep).
Qed.

(** The front-to-back loop, wherever it has got to. *)
Lemma front_loop_trace (raw_meter done rest : meter) (st : state) :
  raw_meter = done ++ rest ->
  for_each front_step (initial false raw_meter) done = Ok st ->
  front_trace (length raw_meter) done st.
Proof.
  apply (for_each_trace (front_trace (length raw_meter)) front_step).
  - apply front_trace_initial.
  - intros d x r s s' Hsplit Hinv Hstep.
    apply (front_step_trace _ _ _ x _ Hinv); [|exact Hstep].
    rewrite Hsplit, length_app. simpl. lia.
Qed.

Lemma back_pass_parts (raw_meter : meter) (st : state) :
  back_pass raw_meter = Ok st ->
  exists parts : list part,
    trimeter st = map filled_of parts /\
    raw_meter = current st ++ concat (map matched_of parts) /\
    Forall part_ok parts /\
    (parts = [] \/
     exists init c m,
       parts = init ++ [(c, true, m)] /\
       Forall (fun p => final_of p = false) init).
Proof.
  intros H.
  destruct (back_loop_trace raw_meter (rev raw_meter) [] st)
    as (_ & _ & parts & Htri & Hrev & Hok & Hflags);
    [now rewrite app_nil_r | exact H |].
  rewrite rev_involutive in Hrev.
  exists parts. repeat split; try assumption.
  destruct Hflags as [[-> _]|[_ Hlast]]; [now left | now right].
Qed.

Lemma front_pass_parts (raw_meter : meter) (st : state) :
  front_pass raw_meter = Ok st ->
  exists parts : list part,
    trimeter st = map filled_of parts /\
    raw_meter = concat (map matched_of parts) ++ current st /\
    Forall part_ok parts /\
    Forall (fun p => final_of p = false) parts.
Proof.
  intros H.
  destruct (front_loop_trace raw_meter raw_meter [] st)
    as (_ & _ & _ & parts & Htri & Hraw & Hok & Hflags);
    [now rewrite app_nil_r | exact H |].
  exists parts. repeat split; assumption.
Qed.

(** What a successful scan is made of. *)
Lemma scan_trimeter_success (P : Platform) (line : str) (s : meter)
    (out : list printed) :
  scan_trimeter P line = Ok (Some s, out) ->
  exists raw_meter (parts : list part) left,
    scan_line P line = Ok raw_meter /\
    out = [] /\
    length parts = 3%nat /\
    s = concat (map filled_of parts) /\
    Forall part_ok parts /\
    ((raw_meter = left ++ concat (map matched_of parts) /\
      exists init c m,
        parts = init ++ [(c, true, m)] /\
        Forall (fun p => final_of p = false) init) \/
     (raw_meter = concat (map matched_of parts) ++ left /\
      Forall (fun p => final_of p = false) parts)).
Proof.
  unfold scan_trimeter. intros H.
  destruct (scan_line P line) as [raw_meter|e] eqn:Eraw; [|discriminate H].
  cbn [bind] in H.
  apply bind_ok in H as (st & Hback & H).
  destruct (Nat.eqb_spec (length (trimeter st)) 3) as [E3|_].
  - injection H as <- <-.
    destruct (back_pass_parts _ _ Hback) as (parts & Htri & Hraw & Hok & Hfl).
    rewrite Htri, length_map in E3.
    exists raw_meter, parts, (current st).
    repeat split; try assumption; [now rewrite Htri|].
    left. split; [exact Hraw|].
    destruct Hfl as [->|Hfl]; [discriminate E3 | exact Hfl].
  - apply bind_ok in H as (trimeter2 & H2 & H).
    unfold scan_trimeter_2 in H2. rewrite Eraw in H2. cbn [bind] in H2.
    apply bind_ok in H2 as (st2 & Hfront & H2). injection H2 as <-.
    destruct (Nat.eqb_spec (length (trimeter st2)) 3) as [E3|_];
      [|discriminate H].
    injection H as <- <-.
    destruct (front_pass_parts _ _ Hfront)
      as (parts & Htri & Hraw & Hok & Hfl).
    rewrite Htri, length_map in E3.
    exists raw_meter, parts, (current st2).
    repeat split; try assumption; [now rewrite Htri|].
    right. split; assumption.
Qed.

(** When [scan_trimeter] succeeds, the three metra are consecutive
    segments of the raw meter: they end the line when the back-to-front
    pass found them (the symbols left over come first, and the third
    metron alone was matched and filled as final), and they start the line
    when the front-to-back pass found them (the symbols left over come
    last, and no metron was matched as final).  The result is the three
    fills in line order. *)
Theorem scan_trimeter_partition (P : Platform) (line : str) (s : meter)
    (out : list printed) :
  scan_trimeter P line = Ok (Some s, out) ->
  exists raw_meter left c1 c2 c3 m1 m2 m3 f3,
    scan_line P line = Ok raw_meter /\
    s = m1 ++ m2 ++ m3 /\
    ((f3 = true /\ raw_meter = left ++ c1 ++ c2 ++ c3) \/
     (f3 = false /\ raw_meter = c1 ++ c2 ++ c3 ++ left)) /\
    part_ok (c1, false, m1) /\
    part_ok (c2, false, m2) /\
    part_ok (c3, f3, m3).
Proof.
  intros H.
  destruct (scan_trimeter_success P line s out H)
    as (raw_meter & parts & left & Hraw & _ & H3 & -> & Hok & Hcase).
  destruct parts as [|[[c1 f1] m1] [|[[c2 f2] m2] [|[[c3 f3] m3] [|? ?]]]];
    try discriminate H3.
  pose proof (Forall_inv Hok) as Hok1.
  pose proof (Forall_inv (Forall_inv_tail Hok)) as Hok2.
  pose proof (Forall_inv (Forall_inv_tail (Forall_inv_tail Hok))) as Hok3.
  exists raw_meter, left, c1, c2, c3, m1, m2, m3, f3.
  split; [exact Hraw|].
  split; [simpl; now rewrite app_nil_r|].
  simpl in Hcase. rewrite app_nil_r in Hcase.
  destruct Hcase as [[Hsplit (init & c & m & Hparts & Hinit)]
                    |[Hsplit Hfl]].
  - change [(c1, f1, m1); (c2, f2, m2); (c3, f3, m3)]
      with ([(c1, f1, m1); (c2, f2, m2)] ++ [(c3, f3, m3)]) in Hparts.
    apply app_inj_tail in Hparts as [<- Hp3].
    injection Hp3 as -> -> ->.
    pose proof (Forall_inv Hinit) as Hf1.
    pose proof (Forall_inv (Forall_inv_tail Hinit)) as Hf2.
    cbv in Hf1, Hf2. subst f1 f2.
    split; [left; split; [reflexivity | exact Hsplit]|].
    split; [exact Hok1 | split; [exact Hok2 | exact Hok3]].
  - pose proof (Forall_inv Hfl) as Hf1.
    pose proof (Forall_inv (Forall_inv_tail Hfl)) as Hf2.
    pose proof (Forall_inv (Forall_inv_tail (Forall_inv_tail Hfl))) as Hf3.
    cbv in Hf1, Hf2, Hf3. subst f1 f2 f3.
    split; [right; split; [reflexivity|]|].
    + rewrite Hsplit. now rewrite <- !app_assoc.
    + split; [exact Hok1 | split; [exact Hok2 | exact Hok3]].
Qed.

(** A successful scan has at least 12 symbols and never more symbols than
    the raw meter: a line of fewer than 12 syllables never scans. *)
Theorem scan_trimeter_needs_twelve (P : Platform) (line : str) (s : meter)
    (out : list printed) :
  scan_trimeter P line = Ok (Some s, out) ->
  exists raw_meter,
    scan_line P line = Ok raw_meter /\
    (12 <= length s <= length raw_meter)%nat.
Proof.
  intros H.
  destruct (scan_trimeter_success P line s out H)
    as (raw_meter & parts & left & Hraw & _ & H3 & -> & Hok & Hcase).
  exists raw_meter. split; [exact Hraw|].
  destruct (parts_lengths _ Hok) as [Hb Hl]. rewrite Hl.
  destruct Hcase as [[-> _]|[-> _]]; rewrite length_app; lia.
Qed.



(** "πεπηπεπηπηπεπεπεπηπεπηπεπη" is scanned by the back-to-front pass and
    "πεπηπεπηπεπεπηπεπηπεπηπεπη" by the front-to-back pass; neither has
    symbols left over. *)
Lemma scan_trimeter_partition_witness :
  (scan_trimeter Ref.platform Lines.dactyl_line
     = Ok (Some m:"SLSLLSSSLSLSL", []) /\
   exists raw_meter left c1 c2 c3 m1 m2 m3 f3,
     scan_line Ref.platform Lines.dactyl_line = Ok raw_meter /\
     m:"SLSLLSSSLSLSL" = m1 ++ m2 ++ m3 /\
     ((f3 = true /\ raw_meter = left ++ c1 ++ c2 ++ c3) \/
      (f3 = false /\ raw_meter = c1 ++ c2 ++ c3 ++ left)) /\
     part_ok (c1, false, m1) /\
     part_ok (c2, false, m2) /\
     part_ok (c3, f3, m3)) /\
  (scan_trimeter Ref.platform Lines.anapaest_line
     = Ok (Some m:"SLSLSSLSLSLSL", []) /\
   exists raw_meter left c1 c2 c3 m1 m2 m3 f3,
     scan_line Ref.platform Lines.anapaest_line = Ok raw_meter /\
     m:"SLSLSSLSLSLSL" = m1 ++ m2 ++ m3 /\
     ((f3 = true /\ raw_meter = left ++ c1 ++ c2 ++ c3) \/
      (f3 = false /\ raw_meter = c1 ++ c2 ++ c3 ++ left)) /\
     part_ok (c1, false, m1) /\
     part_ok (c2, false, m2) /\
     part_ok (c3, f3, m3)).
Proof.
  assert (scan_trimeter Ref.platform Lines.dactyl_line
          = Ok (Some m:"SLSLLSSSLSLSL", [])) as E1 by (vm_compute; reflexivity).
  assert (scan_trimeter Ref.platform Lines.anapaest_line
          = Ok (Some m:"SLSLSSLSLSLSL", [])) as E2 by (vm_compute; reflexivity).
  split; (split; [assumption|]).
  - exact (scan_trimeter_partition Ref.platform _ _ _ E1).
  - exact (scan_trimeter_partition Ref.platform _ _ _ E2).
Defined.

Lemma scan_trimeter_needs_twelve_witness :
  scan_trimeter Ref.platform Lines.a_pepe3
    = Ok (Some m:"SLSLSLSLSLSL", []) /\
  exists raw_meter,
    scan_line Ref.platform Lines.a_pepe3 = Ok raw_meter /\
    (12 <= length m:"SLSLSLSLSLSL" <= length raw_meter)%nat.
Proof.
  assert (scan_trimeter Ref.platform Lines.a_pepe3
          = Ok (Some m:"SLSLSLSLSLSL", [])) as E by (vm_compute; reflexivity).
  split; [exact E|].
  exact (scan_trimeter_needs_twelve Ref.platform _ _ _ E).
Defined.


(** ** The countdown guard *)

Lemma back_trace_countdown (n : nat) (done : meter) (st : state)
    (m : Symbol) :
  back_trace n done st ->
  (length done < n)%nat ->
  (4 <= length (m :: current st))%nat ->
  (5 <= n)%nat ->
  (countdown st >? 4)%Z = true.
Proof.
  intros (_ & Hcd & parts & Htri & Hrev & Hok & _) Hn H4 H5.
  destruct (parts_lengths _ Hok) as [Hb _].
  assert (length (trimeter st) = length parts) as Hk.
  { rewrite Htri. apply length_map. }
  apply (f_equal (@length Symbol)) in Hrev.
  rewrite length_rev, length_app in Hrev. simpl in H4.
  apply Z.gtb_lt. lia.
Qed.

(** On a raw meter of 5 symbols or more the test
    [countdown == 1 or countdown > 4] holds every time it is evaluated, in
    both passes: a buffer is taken as a metron as soon as the grammar
    accepts it. *)
Theorem countdown_guard_always_holds (raw_meter : meter) :
  (5 <= length raw_meter)%nat ->
  (forall st m,
      before_iteration back_step (initial true raw_meter) (rev raw_meter)
        st m ->
      (4 <= length (m :: current st))%nat ->
      accepts (m :: current st) (is_last st) (countdown st)
      = is_iambic_metron (m :: current st) (is_last st)) /\
  (forall st m,
      before_iteration front_step (initial false raw_meter) raw_meter st m ->
      (4 <= length (current st ++ [m]))%nat ->
      let final := if (countdown st =? 1)%Z then true else is_last st in
      accepts (current st ++ [m]) final (countdown st)
      = is_iambic_metron (current st ++ [m]) final).
Proof.
  intros H5. split.
  - intros st m (done & rest & Hsplit & Hrun) H4.
    pose proof (back_loop_trace raw_meter done (m :: rest) st Hsplit Hrun)
      as Htrace.
    assert (length done < length raw_meter)%nat as Hn.
    { rewrite <- (length_rev raw_meter), Hsplit, length_app. simpl. lia. }
    unfold accepts.
    rewrite (back_trace_countdown _ _ _ m Htrace Hn H4 H5).
    rewrite orb_true_r. apply andb_true_r.
  - intros st m (done & rest & Hsplit & Hrun) H4.
    pose proof (front_loop_trace raw_meter done (m :: rest) st Hsplit Hrun)
      as Htrace.
    assert (length done < length raw_meter)%nat as Hn.
    { rewrite Hsplit, length_app. simpl. lia. }
    destruct (front_trace_countdown _ _ _ m Htrace Hn H4) as [_ Hgt].
    cbv zeta. unfold accepts. rewrite (Hgt H5).
    rewrite orb_true_r. apply andb_true_r.
Qed.

(** On "SLSLX" the back-to-front pass tests the buffer "LSLX" with a
    countdown of 5. *)
Lemma countdown_guard_always_holds_witness :
  (5 <= length m:"SLSLX")%nat /\
  before_iteration back_step (initial true m:"SLSLX") (rev m:"SLSLX")
    {| trimeter := []; current := m:"SLX"; is_last := true; countdown := 5 |}
    LONG /\
  accepts m:"LSLX" true 5 = is_iambic_metron m:"LSLX" true.
Proof.
  assert (5 <= length m:"SLSLX")%nat as H5 by (simpl; lia).
  assert (before_iteration back_step (initial true m:"SLSLX")
            (rev m:"SLSLX")
            {| trimeter := []; current := m:"SLX"; is_last := true;
               countdown := 5 |} LONG) as Hb.
  { exists m:"XLS", m:"S". split; reflexivity. }
  split; [exact H5|]. split; [exact Hb|].
  apply (proj1 (countdown_guard_always_holds m:"SLSLX" H5) _ _ Hb).
  simpl. lia.
Defined.

(** ** Which exceptions leave the scanners *)

Lemma strip_chars_raise (P : Platform) (s : str) (e : exn) :
  strip_chars P s = Raise e -> e = IndexError.
Proof.
  revert e. induction s as [|a s IH]; simpl; intros e H; [discriminate H|].
  destruct (first (nfd P [a])) as [b0|e0] eqn:E0; cbn [bind] in H.
  - destruct (strip_chars P s) as [brest|e1]; cbn [bind] in H;
      [discriminate H|].
    injection H as <-. exact (IH _ eq_refl).
  - injection H as <-. now apply first_raise in E0.
Qed.

Lemma natural_length_raise (P : Platform) (syl : str) (e : exn) :
  natural_length P syl = Raise e -> e = IndexError.
Proof.
  unfold natural_length, strip_str. intros H.
  destruct (strip_chars P syl) as [bare|e0] eqn:E; cbn [bind] in H.
  - repeat match type of H with
           | context [if ?b then _ else _] => destruct b
           end; discriminate H.
  - injection H as <-. exact (strip_chars_raise _ _ _ E).
Qed.

Lemma scan_syllables_raise (P : Platform) (syl_list : list str) (e : exn) :
  scan_syllables P syl_list = Raise e -> e = IndexError.
Proof.
  revert e.
  induction syl_list as [|syl rest IH]; simpl; intros e H; [discriminate H|].
  destruct (syllable_length P syl (next_of rest)) as [sym|e0] eqn:E0;
    cbn [bind] in H.
  - destruct (scan_syllables P rest) as [tail|e1]; cbn [bind] in H;
      [discriminate H|].
    injection H as <-. exact (IH _ eq_refl).
  - injection H as <-. unfold syllable_length in E0.
    destruct (natural_length P syl) as [natural|e1] eqn:E1; cbn [bind] in E0.
    + destruct (negb (Symbol_eqb natural LONG)); [|discriminate E0].
      destruct (positional_length P syl (next_of rest)) as [pos|e2] eqn:E2;
        cbn [bind] in E0.
      * destruct (Symbol_eqb pos LONG); [discriminate E0|].
        destruct (Symbol_eqb natural SHORT); discriminate E0.
      * injection E0 as <-.
        now apply positional_length_raise in E2.
    + injection E0 as <-. exact (natural_length_raise _ _ _ E1).
Qed.

(** [fill_metron] raises only on 5 symbols; [TypeError] needs the final
    flag and a last symbol X. *)
Lemma fill_metron_raise (metron : meter) (final : bool) (e : exn) :
  fill_metron metron final = Raise e ->
  length metron = 5%nat /\
  (e = IndexError \/
   (e = TypeError /\ final = true /\ last metron = Ok UNKNOWN)).
Proof.
  intros H.
  destruct (Nat.eq_dec (length metron) 5) as [E5|N5].
  - split; [exact E5|].
    unfold fill_metron in H. rewrite E5 in H. cbn [Nat.eqb] in H.
    destruct (first (filter (wildcard_match metron) possible_metra))
      as [cand|e0] eqn:Ecand; cbn [bind] in H.
    + destruct final; [|discriminate H].
      destruct (last metron) as [m_last|e1] eqn:Elast; cbn [bind] in H.
      * destruct (Symbol_eqb m_last UNKNOWN) eqn:Es; cbn [andb] in H;
          [|discriminate H].
        destruct (negb (Meter.ends_with m:"SSS" cand)); [|discriminate H].
        injection H as <-. apply Symbol_eqb_eq in Es. subst m_last.
        right. repeat split.
      * injection H as <-. apply last_raise in Elast as [_ ->]. now left.
    + injection H as <-. apply first_raise in Ecand as [_ ->]. now left.
  - exfalso.
    destruct metron as [|a [|b [|c [|d [|e' [|f [|g rest]]]]]]];
      simpl in N5; try (now elim N5); simpl in H; discriminate H.
Qed.

Lemma front_pass_raise (raw_meter : meter) (e : exn) :
  front_pass raw_meter = Raise e -> e = IndexError.
Proof.
  intros H.
  apply for_each_raise in H as (st & m & (done & rest & Hsplit & Hrun) & H).
  pose proof (front_loop_trace raw_meter done (m :: rest) st Hsplit Hrun)
    as Htrace.
  assert (length done < length raw_meter)%nat as Hn.
  { rewrite Hsplit, length_app. simpl. lia. }
  pose proof (front_trace_countdown _ _ _ m Htrace Hn) as Hcount.
  destruct Htrace as (_ & Hil & _).
  unfold front_step in H.
  destruct (Nat.ltb_spec (length (current st ++ [m])) 4) as [Hlt|Hge];
    [discriminate H|].
  destruct (Hcount Hge) as [Hc1 _]. rewrite Hc1, Hil in H.
  destruct (accepts (current st ++ [m]) false (countdown st));
    [|discriminate H].
  destruct (fill_metron (current st ++ [m]) false) as [metron|e0] eqn:Ef;
    cbn [bind] in H; [discriminate H|].
  injection H as <-.
  apply fill_metron_raise in Ef as (_ & [->|(_ & Hf & _)]);
    [reflexivity | discriminate Hf].
Qed.

Lemma scan_trimeter_2_raise (P : Platform) (line : str) (e : exn) :
  scan_trimeter_2 P line = Raise e -> e = IndexError.
Proof.
  unfold scan_trimeter_2, scan_line. cbv zeta. intros H.
  destruct (scan_syllables P (syllabify P (strip P line)))
    as [raw_meter|e0] eqn:Eraw; cbn [bind] in H.
  - destruct (front_pass raw_meter) as [st|e1] eqn:Ef; cbn [bind] in H;
      [discriminate H|].
    injection H as <-. exact (front_pass_raise _ _ Ef).
  - injection H as <-. exact (scan_syllables_raise _ _ _ Eraw).
Qed.

(** The only exception that leaves [scan_trimeter_2] is [IndexError]: the
    front-to-back pass never reaches the assignment to the filled string. *)
Theorem scan_trimeter_2_raises (P : Platform) (line : str) (e : exn) :
  scan_trimeter_2 P line = Raise e -> e = IndexError.
Proof.
  apply scan_trimeter_2_raise.
Qed.

(** On the line with the metron "LLSSS" the fallback pass raises
    [IndexError]. *)
Lemma scan_trimeter_2_raises_witness :
  scan_trimeter_2 Ref.platform Lines.spondee_line = Raise IndexError /\
  IndexError = IndexError.
Proof.
  assert (scan_trimeter_2 Ref.platform Lines.spondee_line = Raise IndexError)
    as E by (vm_compute; reflexivity).
  split; [exact E|].
  exact (scan_trimeter_2_raises Ref.platform _ _ E).
Defined.

Lemma final_five_unknown (m0 m1 m2 m3 : Symbol) :
  is_iambic_metron [m0; m1; m2; m3; UNKNOWN] true = true ->
  fill_metron [m0; m1; m2; m3; UNKNOWN] true = Raise TypeError.
Proof.
  intros H. destruct m0, m1, m2, m3; try discriminate H; reflexivity.
Qed.

(** The first five iterations of the back-to-front loop on a raw meter
    that ends in a 5-symbol final metron with X last. *)
Lemma back_five (cd : Z) (m0 m1 m2 m3 : Symbol) :
  (cd >? 4)%Z = true ->
  is_iambic_metron [m0; m1; m2; m3; UNKNOWN] true = true ->
  is_iambic_metron [m1; m2; m3; UNKNOWN] true = false ->
  for_each back_step
    {| trimeter := []; current := []; is_last := true; countdown := cd |}
    [UNKNOWN; m3; m2; m1; m0]
  = Raise TypeError.
Proof.
  intros Hcd H5 H4.
  unfold for_each, back_step, accepts.
  cbn [bind current is_last countdown trimeter length Nat.ltb Nat.leb].
  rewrite H4. cbn [andb bind current is_last countdown trimeter length
                     Nat.ltb Nat.leb].
  rewrite H5, Hcd, orb_true_r. cbn [andb].
  rewrite (final_five_unknown _ _ _ _ H5). reflexivity.
Qed.

Lemma back_pass_TypeError (raw_meter : meter) :
  back_pass raw_meter = Raise TypeError <->
  exists left m0 m1 m2 m3,
    raw_meter = left ++ [m0; m1; m2; m3; UNKNOWN] /\
    is_iambic_metron [m0; m1; m2; m3; UNKNOWN] true = true /\
    is_iambic_metron [m1; m2; m3; UNKNOWN] true = false.
Proof.
  split.
  - intros H.
    apply for_each_raise in H as (st & m & (done & rest & Hsplit & Hrun) & H).
    pose proof (back_loop_trace raw_meter done (m :: rest) st Hsplit Hrun)
      as (Hp & Hcd & parts & Htri & Hrev & _ & Hflags).
    unfold back_step in H.
    destruct (Nat.ltb_spec (length (m :: current st)) 4) as [Hlt|Hge];
      [discriminate H|].
    destruct (accepts (m :: current st) (is_last st) (countdown st)) eqn:Hacc;
      [|discriminate H].
    destruct (fill_metron (m :: current st) (is_last st)) as [?|e0] eqn:Ef;
      cbn [bind] in H; [discriminate H|].
    injection H as ->.
    apply fill_metron_raise in Ef as (E5 & [Hf|(_ & Hil & Hlast)]);
      [discriminate Hf|].
    destruct Hflags as [[-> _]|[Hil' _]]; [|rewrite Hil in Hil'; discriminate].
    simpl in Hrev. rewrite app_nil_r in Hrev.
    destruct (current st) as [|m1 [|m2 [|m3 [|m4 [|? ?]]]]] eqn:Ecur;
      try discriminate E5.
    assert (m4 = UNKNOWN) as ->.
    { unfold last in Hlast. simpl in Hlast. now injection Hlast. }
    exists (rev rest), m, m1, m2, m3.
    assert (raw_meter = rev rest ++ [m; m1; m2; m3; UNKNOWN]) as Hraw.
    { rewrite <- (rev_involutive raw_meter), Hsplit, rev_app_distr.
      simpl. rewrite Hrev. rewrite <- app_assoc. reflexivity. }
    split; [exact Hraw|].
    apply andb_true_iff in Hacc as [Hm _]. rewrite Hil in Hm.
    split; [exact Hm|].
    unfold pending_rejected in Hp. rewrite Ecur, Hil in Hp.
    specialize (Hp ltac:(simpl; lia)). unfold accepts in Hp.
    assert ((countdown st >? 4)%Z = true) as Hgt.
    { rewrite Hcd, Htri. simpl.
      apply (f_equal (@length Symbol)) in Hraw.
      rewrite length_app in Hraw. simpl in Hraw.
      apply Z.gtb_lt. lia. }
    rewrite Hgt, orb_true_r, andb_true_r in Hp. exact Hp.
  - intros (left & m0 & m1 & m2 & m3 & -> & H5 & H4).
    unfold back_pass. rewrite rev_app_distr. simpl rev at 1.
    rewrite for_each_app. unfold initial.
    rewrite back_five; [reflexivity | | exact H5 | exact H4].
    apply Z.gtb_lt. rewrite length_app. simpl. lia.
Qed.

(** [TypeError] leaves [scan_trimeter] exactly when the raw meter ends in a
    5-symbol metron of the final grammar whose last symbol is X, while its
    last 4 symbols are no final metron. *)
Theorem scan_trimeter_TypeError (P : Platform) (line : str)
    (raw_meter : meter) :
  scan_line P line = Ok raw_meter ->
  (scan_trimeter P line = Raise TypeError <->
   exists left m0 m1 m2 m3,
     raw_meter = left ++ [m0; m1; m2; m3; UNKNOWN] /\
     is_iambic_metron [m0; m1; m2; m3; UNKNOWN] true = true /\
     is_iambic_metron [m1; m2; m3; UNKNOWN] true = false).
Proof.
  intros Hraw. rewrite <- back_pass_TypeError.
  unfold scan_trimeter. rewrite Hraw. cbn [bind].
  destruct (back_pass raw_meter) as [st|e] eqn:Eb; cbn [bind].
  - split; [|intros H; discriminate H].
    intros H. exfalso.
    destruct (length (trimeter st) =? 3)%nat; [discriminate H|].
    destruct (scan_trimeter_2 P line) as [tri2|e2] eqn:E2; cbn [bind] in H.
    + destruct (length tri2 =? 3)%nat; discriminate H.
    + injection H as ->. apply scan_trimeter_2_raise in E2. discriminate E2.
  - split; intros H; injection H as ->; reflexivity.
Qed.

Lemma scan_trimeter_TypeError_witness :
  scan_line Ref.platform Lines.pepepepepa = Ok m:"SSSSX" /\
  scan_trimeter Ref.platform Lines.pepepepepa = Raise TypeError.
Proof.
  split; [reflexivity|].
  apply (proj2 (scan_trimeter_TypeError Ref.platform Lines.pepepepepa
                  m:"SSSSX" eq_refl)).
  exists [], SHORT, SHORT, SHORT, SHORT.
  repeat split.
Defined.

(** What [scan_trimeter] prints: nothing when it returns a scansion; when
    it returns [None], the heading, the line, the raw meter and an empty
    line, and then both passes have run to their end without forming
    exactly three metra. *)
Theorem scan_trimeter_output (P : Platform) (line : str)
    (r : option meter) (out : list printed) :
  scan_trimeter P line = Ok (r, out) ->
  exists raw_meter,
    scan_line P line = Ok raw_meter /\
    match r with
    | Some _ => out = []
    | None =>
        out = failure_report line raw_meter /\
        exists st1 st2,
          back_pass raw_meter = Ok st1 /\
          front_pass raw_meter = Ok st2 /\
          length (trimeter st1) <> 3%nat /\
          length (trimeter st2) <> 3%nat
    end.
Proof.
  unfold scan_trimeter, scan_trimeter_2. intros H.
  destruct (scan_line P line) as [raw_meter|e] eqn:Eraw; [|discriminate H].
  cbn [bind] in H. exists raw_meter. split; [reflexivity|].
  destruct (back_pass raw_meter) as [st1|e] eqn:Eb; cbn [bind] in H;
    [|discriminate H].
  destruct (Nat.eqb_spec (length (trimeter st1)) 3) as [E1|N1].
  - injection H as <- <-. reflexivity.
  - destruct (front_pass raw_meter) as [st2|e] eqn:Ef; cbn [bind] in H;
      [|discriminate H].
    destruct (Nat.eqb_spec (length (trimeter st2)) 3) as [E2|N2].
    + injection H as <- <-. reflexivity.
    + injection H as <- <-. split; [reflexivity|].
      exists st1, st2. repeat split; assumption.
Qed.

(** "πετρα" has two syllables: the scan gives up and prints the report. *)
Lemma scan_trimeter_output_witness :
  scan_trimeter Ref.platform Lines.petra
    = Ok (None, failure_report Lines.petra m:"XX") /\
  exists raw_meter,
    scan_line Ref.platform Lines.petra = Ok raw_meter /\
    failure_report Lines.petra m:"XX" = failure_report Lines.petra raw_meter.
Proof.
  assert (scan_trimeter Ref.platform Lines.petra
          = Ok (None, failure_report Lines.petra m:"XX")) as E
    by (vm_compute; reflexivity).
  split; [exact E|].
  destruct (scan_trimeter_output Ref.platform _ _ _ E)
    as (raw_meter & Hraw & Hout & _).
  exists raw_meter. split; assumption.
Defined.

(** "α" has a decomposition, and a natural length. *)
Lemma natural_length_returns_witness :
  (forall c, In c [alpha] -> nfd Ref.platform [c] <> []) /\
  exists sym, natural_length Ref.platform [alpha] = Ok sym.
Proof.
  assert (forall c, In c [alpha] -> nfd Ref.platform [c] <> []) as Hn.
  { intros c _. simpl. rewrite app_nil_r. apply decompose_nonempty. }
  split; [exact Hn|].
  exact (proj2 (proj1 (natural_length_returns Ref.platform [alpha])) Hn).
Defined.

(** "SLSSS", the second resolution. *)
Lemma POSSIBLE_METRA_filled_witness :
  In m:"SLSSS" POSSIBLE_METRA /\
  is_iambic_metron m:"SLSSS" false = true /\
  fill_metron m:"SLSSS" true = Ok m:"SLSSS".
Proof.
  assert (In m:"SLSSS" POSSIBLE_METRA) as Hin by (simpl; tauto).
  split; [exact Hin|].
  destruct (proj1 POSSIBLE_METRA_filled _ Hin) as (_ & Hm & Hfill).
  split; [exact Hm | exact (Hfill true)].
Defined.
